(** * dbwebnew: identifier resolution, row-fetch query construction and
      column-label resolution of the database table browser

    Shallow embedding of [src/api/app.py] (the metadata-driven service) and
    [src/api/main.py] (the static-dictionary service).

    A Python [str] is a sequence of Unicode code points: it is modelled as
    [list N].  The Python built-ins and library calls the two services use
    ([str.strip], [str.split], [urllib.parse.unquote], [re.match],
    [dict]) are modelled first, then the functions of the services. *)

From Stdlib Require Import Strings.Ascii Strings.String Numbers.DecimalString.
From Stdlib Require Import NArith ZArith List Bool Lia.
Import ListNotations.

Local Open Scope N_scope.

(** ** Python strings *)

Definition char := N.
Definition str := list char.

Definition str_eq_dec : forall a b : str, {a = b} + {a <> b} :=
  list_eq_dec N.eq_dec.

Definition str_eqb (a b : str) : bool :=
  if str_eq_dec a b then true else false.

(** ** UTF-8 decoding, [bytes.decode("utf-8", "replace")]

    Every malformed sequence is replaced by U+FFFD: a byte that cannot start
    a sequence consumes one byte, an invalid continuation consumes the bytes
    before it, and a sequence cut by the end of the data consumes the rest. *)

Definition REPLACEMENT : char := 0xFFFD.

Definition is_continuation (b : N) : bool := (0x80 <=? b) && (b <=? 0xBF).

(** The second byte of a three- or four-byte sequence has a narrower range
    after the lead bytes E0, ED, F0 and F4 (overlong forms, surrogates and
    code points above U+10FFFF are malformed). *)
Definition second_ok (b1 b2 : N) : bool :=
  is_continuation b2 &&
  negb ((b1 =? 0xE0) && (b2 <? 0xA0)) &&
  negb ((b1 =? 0xED) && (0xA0 <=? b2)) &&
  negb ((b1 =? 0xF0) && (b2 <? 0x90)) &&
  negb ((b1 =? 0xF4) && (0x90 <=? b2)).

Fixpoint decode_utf8 (bs : list N) : str :=
  match bs with
  | [] => []
  | b1 :: r1 =>
    if b1 <? 0x80 then b1 :: decode_utf8 r1
    else if (b1 <? 0xC2) || (0xF5 <=? b1) then REPLACEMENT :: decode_utf8 r1
    else
      match r1 with
      | [] => [REPLACEMENT]
      | b2 :: r2 =>
        if b1 <? 0xE0 then
          if is_continuation b2
          then ((b1 - 0xC0) * 64 + (b2 - 0x80)) :: decode_utf8 r2
          else REPLACEMENT :: decode_utf8 r1
        else if negb (second_ok b1 b2) then REPLACEMENT :: decode_utf8 r1
        else
          match r2 with
          | [] => [REPLACEMENT]
          | b3 :: r3 =>
            if negb (is_continuation b3) then REPLACEMENT :: decode_utf8 r2
            else if b1 <? 0xF0 then
              ((b1 - 0xE0) * 4096 + (b2 - 0x80) * 64 + (b3 - 0x80))
                :: decode_utf8 r3
            else
              match r3 with
              | [] => [REPLACEMENT]
              | b4 :: r4 =>
                if is_continuation b4
                then ((b1 - 0xF0) * 262144 + (b2 - 0x80) * 4096
                      + (b3 - 0x80) * 64 + (b4 - 0x80)) :: decode_utf8 r4
                else REPLACEMENT :: decode_utf8 r3
              end
          end
      end
  end.

(** A source literal: the UTF-8 bytes of the Rocq string, decoded. *)
Definition py (s : string) : str :=
  decode_utf8 (map N_of_ascii (list_ascii_of_string s)).


(** ** [str.strip]

    Without argument it removes leading and trailing whitespace, the
    characters for which [str.isspace] holds. *)

Definition is_space (c : char) : bool :=
  ((0x09 <=? c) && (c <=? 0x0D)) || ((0x1C <=? c) && (c <=? 0x20)) ||
  (c =? 0x85) || (c =? 0xA0) || (c =? 0x1680) ||
  ((0x2000 <=? c) && (c <=? 0x200A)) || (c =? 0x2028) || (c =? 0x2029) ||
  (c =? 0x202F) || (c =? 0x205F) || (c =? 0x3000).

Definition is_nil {A} (l : list A) : bool :=
  match l with [] => true | _ :: _ => false end.

Fixpoint lstrip (s : str) : str :=
  match s with
  | [] => []
  | c :: t => if is_space c then lstrip t else s
  end.

Fixpoint rstrip (s : str) : str :=
  match s with
  | [] => []
  | c :: t =>
    let t' := rstrip t in
    if is_nil t' && is_space c then [] else c :: t'
  end.

Definition strip (s : str) : str := rstrip (lstrip s).

(** ** [sep in s] and [s.split(sep, 1)] for a one-character separator *)

Definition contains (sep : char) (s : str) : bool := existsb (N.eqb sep) s.

(** The two elements of [s.split(sep, 1)] when [sep] is in [s]: the text
    before the first [sep] and the text after it. *)
Fixpoint split_once (sep : char) (s : str) : str * str :=
  match s with
  | [] => ([], [])
  | c :: t =>
    if c =? sep then ([], t)
    else let (a, b) := split_once sep t in (c :: a, b)
  end.

(** ** [urllib.parse.unquote]

    A string without ['%'] is returned as it is.  Otherwise every maximal
    run of ASCII characters has its [%XX] escapes replaced by the bytes
    they denote and is decoded as UTF-8 with replacement; the characters
    outside ASCII are kept. *)

Definition PERCENT : char := 37.

Definition hexval (c : char) : option N :=
  if (48 <=? c) && (c <=? 57) then Some (c - 48)
  else if (65 <=? c) && (c <=? 70) then Some (c - 55)
  else if (97 <=? c) && (c <=? 102) then Some (c - 87)
  else None.

Fixpoint unquote_to_bytes (s : list N) : list N :=
  match s with
  | [] => []
  | c :: t =>
    if c =? PERCENT then
      match t with
      | h :: l :: t' =>
        match hexval h, hexval l with
        | Some x, Some y => (16 * x + y) :: unquote_to_bytes t'
        | _, _ => PERCENT :: unquote_to_bytes t
        end
      | _ => PERCENT :: unquote_to_bytes t
      end
    else c :: unquote_to_bytes t
  end.

(** [run] is the ASCII run read so far, last character first. *)
Fixpoint unquote_parts (s : str) (run : list N) : str :=
  match s with
  | [] => decode_utf8 (unquote_to_bytes (rev run))
  | c :: t =>
    if c <? 0x80 then unquote_parts t (c :: run)
    else decode_utf8 (unquote_to_bytes (rev run)) ++ c :: unquote_parts t []
  end.

Definition unquote (s : str) : str :=
  if contains PERCENT s then unquote_parts s [] else s.

(** ** [SAFE_NAME_RE = re.compile(r"^[A-Za-z0-9_ .-]+$")] *)

Definition safe_char (c : char) : bool :=
  ((65 <=? c) && (c <=? 90)) || ((97 <=? c) && (c <=? 122)) ||
  ((48 <=? c) && (c <=? 57)) ||
  (c =? 95) || (c =? 32) || (c =? 46) || (c =? 45).

Definition NEWLINE : char := 10.

(** [re.match] of the part [[A-Za-z0-9_ .-]*$] at the current position.
    Outside MULTILINE mode [$] matches at the end of the string and also
    just before a newline that is the last character of the string. *)
Fixpoint safe_rest (s : str) : bool :=
  match s with
  | [] => true
  | c :: t => if safe_char c then safe_rest t else (c =? NEWLINE) && is_nil t
  end.

Definition SAFE_NAME_RE_match (s : str) : bool :=
  match s with
  | [] => false
  | c :: t => safe_char c && safe_rest t
  end.

(** ** [str(n)] of an integer *)

Definition str_of_Z (n : Z) : str := py (NilZero.string_of_int (Z.to_int n)).

(** ** [urllib.parse.quote_plus]

    The string is encoded as UTF-8; a byte that is a letter, a digit or one
    of [_.-~] is kept, a space becomes [+], any other byte becomes [%XX]
    with upper-case digits.  A surrogate cannot be encoded
    ([UnicodeEncodeError]). *)

Definition encode_char (c : char) : option (list N) :=
  if c <? 0x80 then Some [c]
  else if c <? 0x800 then Some [0xC0 + c / 64; 0x80 + c mod 64]
  else if c <? 0x10000 then
    if (0xD800 <=? c) && (c <=? 0xDFFF) then None
    else Some [0xE0 + c / 4096; 0x80 + (c / 64) mod 64; 0x80 + c mod 64]
  else if c <? 0x110000 then
    Some [0xF0 + c / 262144; 0x80 + (c / 4096) mod 64;
          0x80 + (c / 64) mod 64; 0x80 + c mod 64]
  else None.

Fixpoint encode_utf8 (s : str) : option (list N) :=
  match s with
  | [] => Some []
  | c :: t =>
    match encode_char c, encode_utf8 t with
    | Some bs, Some r => Some (bs ++ r)
    | _, _ => None
    end
  end.

Definition always_safe (b : N) : bool :=
  ((65 <=? b) && (b <=? 90)) || ((97 <=? b) && (b <=? 122)) ||
  ((48 <=? b) && (b <=? 57)) ||
  (b =? 95) || (b =? 46) || (b =? 45) || (b =? 126).

Definition hexdigit (n : N) : char := if n <? 10 then 48 + n else 55 + n.

Definition quote_byte (b : N) : str :=
  if always_safe b then [b]
  else if b =? 32 then [43]
  else [PERCENT; hexdigit (b / 16); hexdigit (b mod 16)].

(** [None] stands for [UnicodeEncodeError]. *)
Definition quote_plus (s : str) : option str :=
  match encode_utf8 s with
  | Some bs => Some (flat_map quote_byte bs)
  | None => None
  end.

(** ** Python [dict]

    Keys are unique and kept in insertion order; assigning to a key that
    is present replaces its value in place. *)

Module Dict.
Section Dict.
Context {V : Type}.

Definition t := list (str * V).

Definition empty : t := [].

Fixpoint get (d : t) (k : str) : option V :=
  match d with
  | [] => None
  | (k', v) :: d' => if str_eqb k' k then Some v else get d' k
  end.

(** [d.get(k, dflt)] *)
Definition get_default (d : t) (k : str) (dflt : V) : V :=
  match get d k with Some v => v | None => dflt end.

(** [d[k] = v] *)
Fixpoint set (d : t) (k : str) (v : V) : t :=
  match d with
  | [] => [(k, v)]
  | (k', v') :: d' =>
    if str_eqb k' k then (k', v) :: d' else (k', v') :: set d' k v
  end.

Definition keys (d : t) : list str := map fst d.

(** Assigning the pairs of a list in turn. *)
Definition update (d : t) (l : list (str * V)) : t :=
  fold_left (fun d kv => set d (fst kv) (snd kv)) l d.
End Dict.
Arguments t : clear implicits.
End Dict.

(** ** Exceptions and the database boundary *)

Inductive Exception : Type :=
| ValueError (msg : str)
| HTTPException (status_code : Z) (detail : str)
| DatabaseError (msg : str)
| IndexError.

Inductive Outcome (A : Type) : Type :=
| Return (a : A)
| Raise (e : Exception).
Arguments Return {A} a.
Arguments Raise {A} e.

(** A cell as the driver delivers it. *)
Inductive Cell : Type :=
| Null
| Text (s : str)
| Number (n : Z)
| Boolean (b : bool)
| Moment (iso : str).

(** A statement sent to the database: its text and its bound parameters. *)
Record Statement : Type := {
  sql_text : str;
  bound : list (str * str)
}.

Inductive DbResult (A : Type) : Type :=
| DbRows (a : A)
| DbFailure (msg : str).
Arguments DbRows {A} a.
Arguments DbFailure {A} msg.

(** The database in its current state, seen through the driver: what it
    answers to a catalog query for column comments (rows of column name
    and comment, the comment [None] when it is NULL) and to a row query
    (column names and row tuples). *)
Record Database : Type := {
  comment_rows : Statement -> DbResult (list (str * option str));
  result_set : Statement -> DbResult (list str * list (list Cell))
}.

(** Code that talks to the database threads the list of the statements
    executed so far, the oldest first. *)
Definition Trace := list Statement.

Definition DB (A : Type) : Type := Trace -> Outcome A * Trace.

Definition ret {A} (a : A) : DB A := fun tr => (Return a, tr).

Definition raise {A} (e : Exception) : DB A := fun tr => (Raise e, tr).

Definition bind {A B} (m : DB A) (k : A -> DB B) : DB B :=
  fun tr =>
    match m tr with
    | (Return a, tr') => k a tr'
    | (Raise e, tr') => (Raise e, tr')
    end.

Definition lift {A} (o : Outcome A) : DB A := fun tr => (o, tr).

Notation "x <- m ;; k" := (bind m (fun x => k))
  (at level 61, m at next level, right associativity).

(** A computation whose outcome does not depend on the statements
    executed before it. *)
Definition oblivious {A} (m : DB A) : Prop :=
  forall tr tr', fst (m tr) = fst (m tr').

Definition of_db_result {A} (r : DbResult A) : Outcome A :=
  match r with
  | DbRows a => Return a
  | DbFailure msg => Raise (DatabaseError msg)
  end.

(** [pd.read_sql(sql, engine, params=...)] of the catalog query *)
Definition read_sql (db : Database) (stmt : Statement)
  : DB (list (str * option str)) :=
  fun tr => (of_db_result (comment_rows db stmt), tr ++ [stmt]).

(** [conn.execute(sql, params)] / [cursor.execute(sql)], then [fetchall]
    and the column names *)
Definition execute (db : Database) (stmt : Statement)
  : DB (list str * list (list Cell)) :=
  fun tr => (of_db_result (result_set db stmt), tr ++ [stmt]).

(** ** The metadata-driven service, [src/api/app.py] *)

Module App.

Definition DOT : char := 46.

(** The two errors of the resolver. *)
Definition INVALID_FORMAT : Exception := ValueError (py "table 名稱格式不合法").
Definition EMPTY_PART : Exception := ValueError (py "schema/table 不可為空").

Definition parse_schema_table (full : str) : Outcome (str * str) :=
  let full := strip full in
  let full := unquote full in
  if negb (SAFE_NAME_RE_match full) then Raise INVALID_FORMAT
  else
    let (schema, table) :=
      if contains DOT full then split_once DOT full else (py "dbo", full) in
    let schema := strip schema in
    let table := strip table in
    if is_nil schema || is_nil table then Raise EMPTY_PART
    else Return (schema, table).

Definition comments_sql : str := py "
    SELECT
        c.name AS column_name,
        CAST(ep.value AS NVARCHAR(4000)) AS column_comment
    FROM sys.columns c
    INNER JOIN sys.objects o ON c.object_id = o.object_id
    INNER JOIN sys.schemas s ON o.schema_id = s.schema_id
    LEFT JOIN sys.extended_properties ep
        ON ep.major_id = c.object_id
        AND ep.minor_id = c.column_id
        AND ep.name = 'MS_Description'
    WHERE s.name = :schema AND o.name = :table
    ORDER BY c.column_id
    ".

(** The loop over the rows of the catalog query: a comment that is NULL,
    empty or blank is skipped, any other is stored stripped. *)
Fixpoint collect_comments (mapping : Dict.t str)
    (rows : list (str * option str)) : Dict.t str :=
  match rows with
  | [] => mapping
  | (column_name, column_comment) :: rest =>
    match column_comment with
    | Some comment =>
      if negb (is_nil comment) && negb (is_nil (strip comment))
      then collect_comments (Dict.set mapping column_name (strip comment)) rest
      else collect_comments mapping rest
    | None => collect_comments mapping rest
    end
  end.

(** The catalog query with its parameters
    [{"schema": schema, "table": table}]. *)
Definition comments_statement (schema table : str) : Statement :=
  {| sql_text := comments_sql;
     bound := [(py "schema", schema); (py "table", table)] |}.

Definition fetch_table_comments (db : Database) (schema table : str)
  : DB (Dict.t str) :=
  df <- read_sql db (comments_statement schema table) ;;
  ret (collect_comments Dict.empty df).

(** The text of the row query; only [limit] is formatted into it. *)
Definition rows_sql (limit : Z) : str :=
  py "
    DECLARE @sql NVARCHAR(MAX) =
        N'SELECT TOP (" ++ str_of_Z limit ++ py ") * FROM ' + QUOTENAME(:schema) + N'.' + QUOTENAME(:table) + N'';
    EXEC sp_executesql @sql, N'@schema sysname, @table sysname', @schema=:schema, @table=:table;
    ".

(** The row query with its parameters
    [{"schema": schema, "table": table}]. *)
Definition rows_statement (limit : Z) (schema table : str) : Statement :=
  {| sql_text := rows_sql limit;
     bound := [(py "schema", schema); (py "table", table)] |}.

(** [for i, c in enumerate(display_cols): d[c] = row[i]] *)
Fixpoint fill_row (d : Dict.t Cell) (i : nat) (display_cols : list str)
    (row : list Cell) : Outcome (Dict.t Cell) :=
  match display_cols with
  | [] => Return d
  | c :: cs =>
    match nth_error row i with
    | Some v => fill_row (Dict.set d c v) (S i) cs row
    | None => Raise IndexError
    end
  end.

Fixpoint fill_rows (display_cols : list str) (rows : list (list Cell))
  : Outcome (list (Dict.t Cell)) :=
  match rows with
  | [] => Return []
  | row :: rest =>
    match fill_row Dict.empty 0 display_cols row with
    | Return d =>
      match fill_rows display_cols rest with
      | Return out => Return (d :: out)
      | Raise e => Raise e
      end
    | Raise e => Raise e
    end
  end.

Record Response : Type := {
  table : str;
  columns : list str;
  rows : list (Dict.t Cell)
}.

(** [comment_map.get(c, c) for c in cols] *)
Definition display_columns (comment_map : Dict.t str) (cols : list str)
  : list str :=
  map (fun c => Dict.get_default comment_map c c) cols.

Definition LIMIT_MESSAGE : str := py "limit 需介於 1~5000".

(** [GET /api/table/{table_full}?limit=N]; [limit] is [None] when the
    request carries none. *)
Definition read_table (db : Database) (table_full : str) (limit : option Z)
  : DB Response :=
  let limit := match limit with Some n => n | None => 100%Z end in
  if ((limit <? 1) || (limit >? 5000))%Z then
    raise (HTTPException 400 LIMIT_MESSAGE)
  else
    match parse_schema_table table_full with
    | Raise (ValueError msg) => raise (HTTPException 400 msg)
    | Raise e => raise e
    | Return (schema, table) =>
      comment_map <- fetch_table_comments db schema table ;;
      res <- execute db (rows_statement limit schema table) ;;
      let (cols, rows) := res in
      let display_cols := display_columns comment_map cols in
      out_rows <- lift (fill_rows display_cols rows) ;;
      ret {| table := schema ++ py "." ++ table;
             columns := display_cols;
             rows := out_rows |}
    end.

(** [GET /api/tables]: the catalog query for the user tables, and one
    string [schema.table] per row of its answer.  [tables_rows] is what the
    database answers to the query: rows of schema name and table name. *)
Definition tables_sql : str := py "
    SELECT
        s.name AS schema_name,
        t.name AS table_name
    FROM sys.tables t
    INNER JOIN sys.schemas s ON t.schema_id = s.schema_id
    ORDER BY s.name, t.name
    ".

Definition tables_statement : Statement :=
  {| sql_text := tables_sql; bound := [] |}.

Definition list_tables (tables_rows : Statement -> DbResult (list (str * str)))
  : DB (list str) :=
  df <- (fun tr => (of_db_result (tables_rows tables_statement),
                    tr ++ [tables_statement])) ;;
  ret (map (fun r => fst r ++ py "." ++ snd r) df).

(** *** The configuration read when the module is loaded *)

(** The process environment after [load_dotenv()]. *)
Definition Environ := str -> option str.

(** [os.getenv(name, default)] *)
Definition getenv (env : Environ) (name : str) (default : option str)
  : option str :=
  match env name with
  | Some v => Some v
  | None => default
  end.

(** The truth value of a setting: [None] and the empty string are false. *)
Definition truthy (v : option str) : bool :=
  match v with
  | Some (_ :: _) => true
  | _ => false
  end.

(** A setting inside an f-string. *)
Definition format (v : option str) : str :=
  match v with
  | Some s => s
  | None => py "None"
  end.

Inductive Startup (A : Type) : Type :=
| Started (a : A)
| RuntimeError (msg : str)
| UnicodeEncodeError.
Arguments Started {A} a.
Arguments RuntimeError {A} msg.
Arguments UnicodeEncodeError {A}.

Definition NOT_SET : str :=
  py "❌ Database environment variables are not fully set".

Definition SCHEME : str := py "mssql+pyodbc://".

(** The module-level code up to [CONN_STR]. *)
Definition CONN_STR (env : Environ) : Startup str :=
  let DB_SERVER := getenv env (py "DB_SERVER") None in
  let DB_NAME := getenv env (py "DB_NAME") None in
  let DB_USER := getenv env (py "DB_USER") None in
  let DB_PASSWORD := getenv env (py "DB_PASSWORD") None in
  let DB_DRIVER :=
    getenv env (py "DB_DRIVER") (Some (py "ODBC Driver 18 for SQL Server")) in
  let DB_ENCRYPT := getenv env (py "DB_ENCRYPT") (Some (py "yes")) in
  let DB_TRUST_CERT := getenv env (py "DB_TRUST_CERT") (Some (py "no")) in
  if negb (forallb truthy [DB_SERVER; DB_NAME; DB_USER; DB_PASSWORD]) then
    RuntimeError NOT_SET
  else
    match quote_plus (format DB_DRIVER) with
    | None => UnicodeEncodeError
    | Some driver_q =>
      match quote_plus (format DB_USER) with
      | None => UnicodeEncodeError
      | Some user_q =>
        match quote_plus (format DB_PASSWORD) with
        | None => UnicodeEncodeError
        | Some password_q =>
          Started
            (SCHEME ++ user_q ++ py ":" ++ password_q
             ++ py "@" ++ format DB_SERVER ++ py "/" ++ format DB_NAME
             ++ py "?driver=" ++ driver_q
             ++ py "&Encrypt=" ++ format DB_ENCRYPT
             ++ py "&TrustServerCertificate=" ++ format DB_TRUST_CERT)
        end
      end
    end.

End App.


(** ** The static-dictionary service, [src/api/main.py] *)

Module Main.

Definition COLUMN_NAME_MAP : Dict.t (Dict.t str) :=
  [
   (py "Orders",
     [
      (py "OrderID", py "訂單編號");
      (py "CustomerID", py "客戶代碼");
      (py "EmployeeID", py "員工編號");
      (py "OrderDate", py "訂單日期");
      (py "RequiredDate", py "需求日期");
      (py "ShippedDate", py "出貨日期");
      (py "ShipVia", py "運送方式");
      (py "Freight", py "運費");
      (py "ShipName", py "收貨人");
      (py "ShipAddress", py "收貨地址");
      (py "ShipCity", py "收貨城市");
      (py "ShipRegion", py "收貨地區");
      (py "ShipPostalCode", py "郵遞區號");
      (py "ShipCountry", py "收貨國家")
     ]);
   (py "Order Details",
     [
      (py "OrderID", py "訂單編號");
      (py "ProductID", py "產品編號");
      (py "UnitPrice", py "單價");
      (py "Quantity", py "數量");
      (py "Discount", py "折扣")
     ]);
   (py "Customers",
     [
      (py "CustomerID", py "客戶代碼");
      (py "CompanyName", py "公司名稱");
      (py "ContactName", py "聯絡人");
      (py "ContactTitle", py "職稱");
      (py "Address", py "地址");
      (py "City", py "城市");
      (py "Region", py "地區");
      (py "PostalCode", py "郵遞區號");
      (py "Country", py "國家");
      (py "Phone", py "電話");
      (py "Fax", py "傳真")
     ]);
   (py "Employees",
     [
      (py "EmployeeID", py "員工編號");
      (py "LastName", py "姓");
      (py "FirstName", py "名");
      (py "Title", py "職稱");
      (py "TitleOfCourtesy", py "稱謂");
      (py "BirthDate", py "生日");
      (py "HireDate", py "到職日");
      (py "Address", py "地址");
      (py "City", py "城市");
      (py "Region", py "地區");
      (py "PostalCode", py "郵遞區號");
      (py "Country", py "國家");
      (py "HomePhone", py "住家電話");
      (py "Extension", py "分機");
      (py "Notes", py "備註")
     ]);
   (py "Products",
     [
      (py "ProductID", py "產品編號");
      (py "ProductName", py "產品名稱");
      (py "SupplierID", py "供應商編號");
      (py "CategoryID", py "產品類別");
      (py "QuantityPerUnit", py "包裝規格");
      (py "UnitPrice", py "單價");
      (py "UnitsInStock", py "庫存數量");
      (py "UnitsOnOrder", py "訂購中數量");
      (py "ReorderLevel", py "補貨水位");
      (py "Discontinued", py "是否停售")
     ]);
   (py "Categories",
     [
      (py "CategoryID", py "類別編號");
      (py "CategoryName", py "類別名稱");
      (py "Description", py "類別說明")
     ]);
   (py "Suppliers",
     [
      (py "SupplierID", py "供應商編號");
      (py "CompanyName", py "公司名稱");
      (py "ContactName", py "聯絡人");
      (py "ContactTitle", py "職稱");
      (py "Address", py "地址");
      (py "City", py "城市");
      (py "Region", py "地區");
      (py "PostalCode", py "郵遞區號");
      (py "Country", py "國家");
      (py "Phone", py "電話");
      (py "Fax", py "傳真");
      (py "HomePage", py "公司網站")
     ]);
   (py "Shippers",
     [
      (py "ShipperID", py "貨運商編號");
      (py "CompanyName", py "貨運公司");
      (py "Phone", py "電話")
     ])
  ].

(** One result row as an object keyed by display label:
    [for col, val in zip(columns, row): item[col_map.get(col, col)] = val] *)
Definition make_item (col_map : Dict.t str) (columns : list str)
    (row : list Cell) : Dict.t Cell :=
  fold_left
    (fun item cv =>
       let zh_col := Dict.get_default col_map (fst cv) (fst cv) in
       Dict.set item zh_col (snd cv))
    (combine columns row) Dict.empty.

(** [table_name] is [None] when the caller gives none. *)
Definition run_query (db : Database) (sql : str) (table_name : option str)
  : DB (list (Dict.t Cell)) :=
  res <- execute db {| sql_text := sql; bound := [] |} ;;
  let (columns, rows) := res in
  let col_map :=
    match table_name with
    | Some name => Dict.get_default COLUMN_NAME_MAP name Dict.empty
    | None => Dict.empty
    end in
  ret (map (make_item col_map columns) rows).

Definition get_tables (db : Database) : DB (list (Dict.t Cell)) :=
  run_query db (py "
        SELECT TABLE_NAME
        FROM INFORMATION_SCHEMA.TABLES
        WHERE TABLE_TYPE = 'BASE TABLE'
        ORDER BY TABLE_NAME
    ") None.

(** The text of the row query: [f"SELECT TOP 100 * FROM dbo.[{table}]"] *)
Definition table_data_sql (table : str) : str :=
  py "SELECT TOP 100 * FROM dbo.[" ++ table ++ py "]".

Definition get_table_data (db : Database) (table : str)
  : DB (list (Dict.t Cell)) :=
  run_query db (table_data_sql table) (Some table).

End Main.


(** ** Sample databases

    [northwind] holds the table [dbo.Orders] with a comment on [OrderID]
    and none on [CustomerID]; [catalog_denied] is the same database with
    the catalog query refused. *)

Definition names_table (stmt : Statement) (name : str) : bool :=
  match bound stmt with
  | [(_, schema); (_, table)] => str_eqb schema (py "dbo") && str_eqb table name
  | _ => false
  end.

Definition orders_comments : list (str * option str) :=
  [(py "OrderID", Some (py "訂單編號")); (py "CustomerID", None)].

Definition orders_rows : list str * list (list Cell) :=
  ([py "OrderID"; py "CustomerID"],
   [[Number 10248; Text (py "VINET")]; [Number 10249; Text (py "TOMSP")]]).

Definition northwind : Database := {|
  comment_rows := fun stmt =>
    if names_table stmt (py "Orders") then DbRows orders_comments
    else DbRows [];
  result_set := fun stmt =>
    if names_table stmt (py "Orders") then DbRows orders_rows
    else DbFailure (py "Invalid object name")
|}.




(** An identifier that closes the bracket and carries a statement. *)
Definition INJECTION : str := py "Orders]; DROP TABLE Orders; --".

(** ** Canonical identifiers

    A pair of names in the form the resolver returns: both non-empty, made
    of allow-list characters, without whitespace at either end, and no dot
    in the schema. *)
Definition canonical (schema table : str) : Prop :=
  schema <> [] /\ table <> [] /\
  forallb safe_char schema = true /\ forallb safe_char table = true /\
  strip schema = schema /\ strip table = table /\
  contains App.DOT schema = false.

(** ** A sample environment and a sample table list *)

Definition sample_env : App.Environ := fun name =>
  if str_eqb name (py "DB_SERVER") then Some (py "db.example.net")
  else if str_eqb name (py "DB_NAME") then Some (py "Northwind")
  else if str_eqb name (py "DB_USER") then Some (py "app user")
  else if str_eqb name (py "DB_PASSWORD") then Some (py "p@ss:w/rd")
  else None.

Definition sample_tables (stmt : Statement) : DbResult (list (str * str)) :=
  DbRows [(py "dbo", py "Order Details"); (py "dbo", py "Orders");
          (py "my.schema", py "Orders")].

(** A database that answers with a row of one cell for two columns. *)
Definition ragged : Database := {|
  comment_rows := fun _ => DbRows [];
  result_set := fun _ =>
    DbRows ([py "A"; py "B"], [[Number 1; Number 2]; [Number 3]])
|}.

(** Whether the strings of a list are distinct. *)
Fixpoint distinct (l : list str) : bool :=
  match l with
  | [] => true
  | x :: t => negb (existsb (str_eqb x) t) && distinct t
  end.

(** The characters of a quoted text: letters, digits and [_.-~+%]. *)
Definition quoted_char (c : char) : bool :=
  always_safe c || (c =? 43) || (c =? PERCENT).

Definition COLON : char := 58.
Definition AT : char := 64.


(** * Properties *)

(** ** Stripping *)

Section Strip.

Lemma lstrip_idem (s : str) : lstrip (lstrip s) = lstrip s.
Proof.
  induction s as [|c t IH]; simpl; auto.
  destruct (is_space c) eqn:E; auto. simpl. now rewrite E.
Qed.

Lemma rstrip_cons (c : char) (t : str) :
  rstrip (c :: t) = if is_nil (rstrip t) && is_space c then [] else c :: rstrip t.
Proof. reflexivity. Qed.

Lemma rstrip_cons_nonspace (c : char) (t : str) :
  is_space c = false -> rstrip (c :: t) = c :: rstrip t.
Proof. intros E. rewrite rstrip_cons, E, andb_false_r. reflexivity. Qed.

Lemma rstrip_idem (s : str) : rstrip (rstrip s) = rstrip s.
Proof.
  induction s as [|c t IH]; auto.
  rewrite rstrip_cons.
  destruct (is_nil (rstrip t) && is_space c) eqn:E; auto.
  rewrite rstrip_cons, IH, E. reflexivity.
Qed.

Lemma lstrip_rstrip (s : str) : lstrip (rstrip s) = rstrip (lstrip s).
Proof.
  induction s as [|c t IH]; auto.
  destruct (is_space c) eqn:E.
  - simpl lstrip at 2. rewrite E, <- IH, rstrip_cons, E, andb_true_r.
    destruct (rstrip t) eqn:R; simpl; auto. now rewrite E.
  - simpl lstrip at 2. rewrite E, rstrip_cons_nonspace by assumption.
    simpl. now rewrite E.
Qed.

Lemma strip_idem (s : str) : strip (strip s) = strip s.
Proof.
  unfold strip.
  now rewrite lstrip_rstrip, lstrip_idem, rstrip_idem.
Qed.

Lemma strip_lstrip (s : str) : strip (lstrip s) = strip s.
Proof. unfold strip. now rewrite lstrip_idem. Qed.

Lemma strip_rstrip (s : str) : strip (rstrip s) = strip s.
Proof. unfold strip. now rewrite lstrip_rstrip, rstrip_idem. Qed.





(** Stripping keeps a part of the string. *)
Lemma lstrip_incl (s : str) (c : char) : In c (lstrip s) -> In c s.
Proof.
  induction s as [|a t IH]; simpl; auto.
  destruct (is_space a); simpl; auto.
Qed.

Lemma rstrip_incl (s : str) (c : char) : In c (rstrip s) -> In c s.
Proof.
  induction s as [|a t IH]; auto.
  rewrite rstrip_cons.
  destruct (is_nil (rstrip t) && is_space a); simpl; intuition.
Qed.

Lemma strip_incl (s : str) (c : char) : In c (strip s) -> In c s.
Proof. intros H. apply lstrip_incl, rstrip_incl, H. Qed.

(** Around a character that is no whitespace each side is stripped
    on its own. *)
Lemma lstrip_app_nonspace (a b : str) (c : char) :
  is_space c = false -> lstrip (a ++ c :: b) = lstrip a ++ c :: b.
Proof.
  intros E. induction a as [|x a IH]; simpl.
  - now rewrite E.
  - destruct (is_space x); auto.
Qed.

Lemma rstrip_app_nonspace (a b : str) (c : char) :
  is_space c = false -> rstrip (a ++ c :: b) = a ++ c :: rstrip b.
Proof.
  intros E. induction a as [|x a IH].
  - simpl app. now apply rstrip_cons_nonspace.
  - simpl app. rewrite rstrip_cons, IH.
    destruct a; reflexivity.
Qed.

Lemma strip_app_nonspace (a b : str) (c : char) :
  is_space c = false -> strip (a ++ c :: b) = lstrip a ++ c :: rstrip b.
Proof.
  intros E. unfold strip.
  now rewrite lstrip_app_nonspace, rstrip_app_nonspace.
Qed.

End Strip.

(** ** Dictionaries *)

Section DictFacts.

Context {V : Type}.
Implicit Types (d : Dict.t V) (k : str) (v : V) (l : list (str * V)).

Lemma str_eqb_eq (a b : str) : str_eqb a b = true <-> a = b.
Proof. unfold str_eqb. destruct (str_eq_dec a b); intuition congruence. Qed.

Lemma str_eqb_neq (a b : str) : str_eqb a b = false <-> a <> b.
Proof. unfold str_eqb. destruct (str_eq_dec a b); intuition congruence. Qed.

Lemma str_eqb_refl (a : str) : str_eqb a a = true.
Proof. now apply str_eqb_eq. Qed.

Lemma get_none d k : Dict.get d k = None <-> ~ In k (Dict.keys d).
Proof.
  unfold Dict.keys. induction d as [|[k' v'] d IH]; simpl; [tauto|].
  destruct (str_eqb k' k) eqn:E.
  - apply str_eqb_eq in E. split; [discriminate|tauto].
  - apply str_eqb_neq in E. rewrite IH. tauto.
Qed.

Lemma get_set_same d k v : Dict.get (Dict.set d k v) k = Some v.
Proof.
  induction d as [|[k' v'] d IH]; simpl.
  - now rewrite str_eqb_refl.
  - destruct (str_eqb k' k) eqn:E; simpl; now rewrite E.
Qed.

Lemma get_set_other d k k' v :
  k <> k' -> Dict.get (Dict.set d k v) k' = Dict.get d k'.
Proof.
  intros N. induction d as [|[k0 v0] d IH]; simpl.
  - apply str_eqb_neq in N. now rewrite N.
  - destruct (str_eqb k0 k) eqn:E; simpl.
    + apply str_eqb_eq in E. subst k0.
      apply str_eqb_neq in N. now rewrite N.
    + now rewrite IH.
Qed.

Lemma set_present d k v :
  In k (Dict.keys d) -> Dict.keys (Dict.set d k v) = Dict.keys d.
Proof.
  induction d as [|[k' v'] d IH]; simpl; [tauto|].
  destruct (str_eqb k' k) eqn:E; simpl; auto.
  apply str_eqb_neq in E. intros [?|I]; [congruence|]. now rewrite IH.
Qed.

Lemma set_absent d k v :
  ~ In k (Dict.keys d) -> Dict.set d k v = d ++ [(k, v)].
Proof.
  induction d as [|[k' v'] d IH]; simpl; auto.
  intros N. destruct (str_eqb k' k) eqn:E.
  - apply str_eqb_eq in E. tauto.
  - rewrite IH; tauto.
Qed.

Lemma update_app d l l' :
  Dict.update d (l ++ l') = Dict.update (Dict.update d l) l'.
Proof. apply fold_left_app. Qed.

(** Assigning pairs whose keys are new and distinct appends them. *)
Lemma update_fresh d l :
  NoDup (Dict.keys d ++ map fst l) -> Dict.update d l = d ++ l.
Proof.
  revert d. induction l as [|[k v] l IH]; intros d H; simpl.
  - now rewrite app_nil_r.
  - simpl in H. assert (N : ~ In k (Dict.keys d)).
    { apply NoDup_remove_2 in H. rewrite in_app_iff in H. tauto. }
    unfold Dict.update in *. simpl. rewrite (set_absent _ _ _ N), IH.
    + now rewrite <- app_assoc.
    + unfold Dict.keys in *. rewrite map_app, <- app_assoc. exact H.
Qed.

Lemma update_keys d l k :
  In k (Dict.keys (Dict.update d l)) <-> In k (Dict.keys d) \/ In k (map fst l).
Proof.
  revert d. induction l as [|[k' v'] l IH]; intros d; simpl; [tauto|].
  unfold Dict.update in *. simpl. rewrite IH.
  destruct (in_dec str_eq_dec k' (Dict.keys d)) as [I|N].
  - rewrite (set_present _ _ _ I). intuition congruence.
  - rewrite (set_absent _ _ _ N). unfold Dict.keys. rewrite map_app, in_app_iff.
    simpl. tauto.
Qed.

Lemma update_NoDup d l :
  NoDup (Dict.keys d) -> NoDup (Dict.keys (Dict.update d l)).
Proof.
  revert d. induction l as [|[k v] l IH]; intros d H; simpl; auto.
  apply IH. destruct (in_dec str_eq_dec k (Dict.keys d)) as [I|N].
  - simpl. now rewrite (set_present _ _ _ I).
  - simpl. rewrite (set_absent _ _ _ N). unfold Dict.keys in *.
    rewrite map_app. simpl. apply NoDup_app; auto.
    + repeat constructor. tauto.
    + intros x Hx [<-|[]]. tauto.
Qed.

Lemma update_snoc d l k v :
  Dict.update d (l ++ [(k, v)]) = Dict.set (Dict.update d l) k v.
Proof. now rewrite update_app. Qed.

(** The value under a key is the one assigned last. *)
Lemma update_get_last d l l' k v :
  ~ In k (map fst l') ->
  Dict.get (Dict.update d (l ++ (k, v) :: l')) k = Some v.
Proof.
  induction l' as [|[k' v'] l' IH] using rev_ind; intros N.
  - rewrite update_snoc. apply get_set_same.
  - rewrite map_app, in_app_iff in N. simpl in N.
    change (l ++ (k, v) :: l' ++ [(k', v')])
      with (l ++ ((k, v) :: l') ++ [(k', v')]).
    rewrite app_assoc, update_snoc, get_set_other by tauto.
    apply IH. tauto.
Qed.

(** A key that is assigned twice, or is present already, saves an entry. *)
Lemma update_length d l :
  (length (Dict.update d l) <= length d + length l)%nat.
Proof.
  revert d. induction l as [|[k v] l IH]; intros d; simpl; [lia|].
  unfold Dict.update in *. simpl. specialize (IH (Dict.set d k v)).
  assert (length (Dict.set d k v) <= S (length d))%nat; [|lia].
  destruct (in_dec str_eq_dec k (Dict.keys d)) as [I|A].
  - rewrite <- (length_map fst (Dict.set d k v)).
    change (map fst (Dict.set d k v)) with (Dict.keys (Dict.set d k v)).
    rewrite (set_present _ _ _ I). unfold Dict.keys. rewrite length_map. lia.
  - rewrite (set_absent _ _ _ A), length_app. simpl. lia.
Qed.

Lemma update_length_dup d l :
  ~ NoDup (Dict.keys d ++ map fst l) ->
  NoDup (Dict.keys d) ->
  (length (Dict.update d l) < length d + length l)%nat.
Proof.
  revert d. induction l as [|[k v] l IH]; intros d H D; simpl.
  - rewrite app_nil_r in H. tauto.
  - unfold Dict.update in *. simpl in *.
    destruct (in_dec str_eq_dec k (Dict.keys d)) as [I|A].
    + assert (L := update_length (Dict.set d k v) l).
      unfold Dict.update in L.
      assert (E : length (Dict.set d k v) = length d); [|lia].
      rewrite <- (length_map fst (Dict.set d k v)).
      change (map fst (Dict.set d k v)) with (Dict.keys (Dict.set d k v)).
      rewrite (set_present _ _ _ I). unfold Dict.keys. apply length_map.
    + specialize (IH (Dict.set d k v)).
      rewrite (set_absent _ _ _ A) in *. rewrite length_app in IH. simpl in IH.
      unfold Dict.keys in *. rewrite map_app, <- app_assoc in IH. simpl in IH.
      assert (length (fold_left (fun d kv => Dict.set d (fst kv) (snd kv)) l
                        (d ++ [(k, v)])) < length d + 1 + length l)%nat;
        [|lia].
      apply IH; auto.
      apply NoDup_app; auto.
      * repeat constructor. tauto.
      * intros x Hx [<-|[]]. tauto.
Qed.

End DictFacts.

(** ** The allow-list, the separator and percent-decoding *)

Section AllowList.

Lemma contains_false (sep : char) (s : str) :
  contains sep s = false <-> ~ In sep s.
Proof.
  unfold contains. induction s as [|c t IH]; simpl; [tauto|].
  rewrite orb_false_iff, IH, N.eqb_neq. intuition congruence.
Qed.

Lemma contains_true (sep : char) (s : str) :
  contains sep s = true <-> In sep s.
Proof.
  unfold contains. rewrite existsb_exists. split.
  - intros (x & Hx & E). apply N.eqb_eq in E. now subst x.
  - intros H. exists sep. split; [assumption|apply N.eqb_refl].
Qed.

Lemma safe_char_not_percent (c : char) : safe_char c = true -> c <> PERCENT.
Proof. intros H E. subst c. discriminate H. Qed.

Lemma safe_char_not_space (c : char) :
  safe_char c = true -> is_space c = true -> c = 32.
Proof.
  unfold safe_char, is_space. intros H S.
  repeat rewrite ?orb_true_iff, ?andb_true_iff, ?N.leb_le, ?N.eqb_eq in H.
  repeat rewrite ?orb_true_iff, ?andb_true_iff, ?N.leb_le, ?N.eqb_eq in S.
  lia.
Qed.

Lemma safe_no_percent (s : str) :
  forallb safe_char s = true -> contains PERCENT s = false.
Proof.
  intros H. apply contains_false. intros I.
  rewrite forallb_forall in H. now apply (safe_char_not_percent _ (H _ I)).
Qed.

Lemma unquote_without_percent (s : str) :
  contains PERCENT s = false -> unquote s = s.
Proof. unfold unquote. now intros ->. Qed.

Lemma safe_rest_all (s : str) : forallb safe_char s = true -> safe_rest s = true.
Proof.
  induction s as [|c t IH]; simpl; auto.
  rewrite andb_true_iff. intros [-> H]. auto.
Qed.

Lemma SAFE_NAME_RE_match_all (s : str) :
  s <> [] -> forallb safe_char s = true -> SAFE_NAME_RE_match s = true.
Proof.
  destruct s as [|c t]; [congruence|]. simpl.
  rewrite andb_true_iff. intros _ [-> H]. now apply safe_rest_all.
Qed.

(** What [safe_rest] accepts: allowed characters, then the end of the
    string or one final newline. *)
Lemma safe_rest_spec (s : str) :
  safe_rest s = true <->
  exists p, forallb safe_char p = true /\ (s = p \/ s = p ++ [NEWLINE]).
Proof.
  induction s as [|c t IH]; simpl.
  - split; auto. intros _. exists []. auto.
  - destruct (safe_char c) eqn:E.
    + rewrite IH. split; intros (p & Hp & Hs).
      * exists (c :: p). simpl. rewrite E, Hp.
        split; auto. destruct Hs as [->| ->]; auto.
      * destruct p as [|x p].
        { destruct Hs as [Hs|Hs]; [discriminate|].
          injection Hs as -> ->. discriminate. }
        simpl in Hp. apply andb_true_iff in Hp as [_ Hp].
        exists p. split; auto.
        destruct Hs as [Hs|Hs]; injection Hs as _ ->; auto.
    + rewrite andb_true_iff, N.eqb_eq. split.
      * intros [-> N]. destruct t; [|discriminate]. exists []. auto.
      * intros (p & Hp & Hs). destruct p as [|x p].
        { destruct Hs as [Hs|Hs]; [discriminate|].
          injection Hs as -> ->. auto. }
        simpl in Hp. apply andb_true_iff in Hp as [Hx _].
        destruct Hs as [Hs|Hs]; injection Hs as -> _; congruence.
Qed.

(** What the pattern accepts under [re.match]. *)
Lemma SAFE_NAME_RE_match_spec (s : str) :
  SAFE_NAME_RE_match s = true <->
  exists p, p <> [] /\ forallb safe_char p = true /\
            (s = p \/ s = p ++ [NEWLINE]).
Proof.
  destruct s as [|c t]; simpl.
  - split; [discriminate|]. intros (p & Hp & _ & [E|E]); [congruence|].
    destruct p; discriminate.
  - rewrite andb_true_iff, safe_rest_spec. split.
    + intros [Hc (p & Hp & Hs)]. exists (c :: p). simpl. rewrite Hc, Hp.
      repeat split; [discriminate|]. destruct Hs as [->| ->]; auto.
    + intros (p & Hn & Hp & Hs). destruct p as [|x p]; [congruence|].
      simpl in Hp. apply andb_true_iff in Hp as [Hx Hp].
      destruct Hs as [Hs|Hs]; injection Hs as -> ->; split; auto; exists p; auto.
Qed.

Lemma split_once_spec (sep : char) (s : str) :
  contains sep s = true ->
  s = fst (split_once sep s) ++ sep :: snd (split_once sep s) /\
  contains sep (fst (split_once sep s)) = false.
Proof.
  unfold contains. induction s as [|c t IH]; simpl; [discriminate|].
  rewrite (N.eqb_sym sep c).
  destruct (c =? sep) eqn:E; simpl.
  - intros _. apply N.eqb_eq in E. subst. auto.
  - intros H. destruct (IH H) as [H1 H2].
    destruct (split_once sep t) as [a b]. simpl in *.
    rewrite (N.eqb_sym sep c), E, H2. split; [congruence|reflexivity].
Qed.

Lemma split_once_app (sep : char) (a b : str) :
  contains sep a = false -> split_once sep (a ++ sep :: b) = (a, b).
Proof.
  unfold contains. induction a as [|c a IH]; simpl.
  - now rewrite N.eqb_refl.
  - rewrite orb_false_iff, (N.eqb_sym sep c). intros [-> H].
    now rewrite (IH H).
Qed.

Lemma forallb_incl {A} (f : A -> bool) (l l' : list A) :
  (forall x, In x l' -> In x l) -> forallb f l = true -> forallb f l' = true.
Proof. rewrite !forallb_forall. auto. Qed.

End AllowList.

(** ** The identifier resolver *)

Section Resolver.

Import App.

(** The resolver in one equation over the stripped and decoded string. *)
Lemma parse_schema_table_eq (raw : str) :
  parse_schema_table raw =
  let full := unquote (strip raw) in
  if SAFE_NAME_RE_match full then
    let parts :=
      if contains DOT full then split_once DOT full else (py "dbo", full) in
    if is_nil (strip (fst parts)) || is_nil (strip (snd parts))
    then Raise EMPTY_PART
    else Return (strip (fst parts), strip (snd parts))
  else Raise INVALID_FORMAT.
Proof.
  unfold parse_schema_table. cbv zeta.
  destruct (SAFE_NAME_RE_match (unquote (strip raw))); simpl negb; cbv iota;
    [|reflexivity].
  destruct (contains DOT (unquote (strip raw))); [|reflexivity].
  destruct (split_once DOT (unquote (strip raw))); reflexivity.
Qed.

(** The resolver raises nothing but its two errors. *)
Lemma parse_schema_table_raises (raw : str) (e : Exception) :
  parse_schema_table raw = Raise e -> e = INVALID_FORMAT \/ e = EMPTY_PART.
Proof.
  rewrite parse_schema_table_eq. cbv zeta.
  destruct (SAFE_NAME_RE_match (unquote (strip raw)));
    [|intros [= <-]; left; reflexivity].
  match goal with |- (if ?b then _ else _) = _ -> _ => destruct b end;
    [intros [= <-]; right; reflexivity|discriminate].
Qed.

(** A string of allowed characters is not changed by decoding, and what
    is left of it after stripping passes the pattern unless it is empty. *)
Lemma unquote_strip_safe (raw : str) :
  forallb safe_char raw = true -> unquote (strip raw) = strip raw.
Proof.
  intros H. apply unquote_without_percent, safe_no_percent.
  revert H. apply forallb_incl, strip_incl.
Qed.

Lemma SAFE_NAME_RE_match_strip_safe (raw : str) :
  forallb safe_char raw = true ->
  SAFE_NAME_RE_match (strip raw) = negb (is_nil (strip raw)).
Proof.
  intros H. destruct (strip raw) as [|c t] eqn:E; [reflexivity|].
  apply SAFE_NAME_RE_match_all; [discriminate|].
  rewrite <- E. revert H. apply forallb_incl, strip_incl.
Qed.

(** A decoded string with a character outside the allow-list is refused,
    a newline that ends the string apart. *)
Lemma parse_schema_table_rejects (raw p q : str) (c : char) :
  unquote (strip raw) = p ++ c :: q ->
  safe_char c = false ->
  c <> NEWLINE \/ q <> [] \/ p = [] ->
  parse_schema_table raw = Raise INVALID_FORMAT.
Proof.
  intros E Hc Hx. rewrite parse_schema_table_eq. cbv zeta.
  destruct (SAFE_NAME_RE_match (unquote (strip raw))) eqn:M; [|reflexivity].
  exfalso. apply SAFE_NAME_RE_match_spec in M as (p' & Hn & Hp & Hs).
  rewrite E in Hs. rewrite forallb_forall in Hp.
  assert (B : ~ In c p') by (intros I; apply Hp in I; congruence).
  destruct Hs as [Hs|Hs].
  - apply B. rewrite <- Hs. apply in_elt.
  - assert (I : In c (p' ++ [NEWLINE])) by (rewrite <- Hs; apply in_elt).
    apply in_app_or in I as [I|[I|[]]]; [tauto|]. subst c.
    assert (Q : q = []).
    { destruct q as [|x q] using rev_ind; [reflexivity|].
      change (p ++ NEWLINE :: q ++ [x]) with (p ++ (NEWLINE :: q) ++ [x]) in Hs.
      rewrite app_assoc in Hs. apply app_inj_tail in Hs as [Hs ->].
      exfalso. apply B. rewrite <- Hs. apply in_elt. }
    subst q. apply app_inj_tail in Hs as [-> _].
    destruct Hx as [Hx|[Hx|Hx]]; congruence.
Qed.

(** A decoded string with a blank part is refused. *)
Lemma parse_schema_table_empty_part (raw : str) :
  let full := unquote (strip raw) in
  let parts :=
    if contains DOT full then split_once DOT full else (py "dbo", full) in
  strip (fst parts) = [] \/ strip (snd parts) = [] ->
  parse_schema_table raw = Raise INVALID_FORMAT \/
  parse_schema_table raw = Raise EMPTY_PART.
Proof.
  intros full parts H. rewrite parse_schema_table_eq. cbv zeta.
  fold full. fold parts.
  destruct (SAFE_NAME_RE_match full); [right|left; reflexivity].
  destruct H as [-> | ->]; [reflexivity|].
  now rewrite orb_true_r.
Qed.

(** A decoded string of allowed characters only is resolved as soon as
    its two parts are not blank. *)
Lemma parse_schema_table_accepts (raw : str) :
  let full := unquote (strip raw) in
  let parts :=
    if contains DOT full then split_once DOT full else (py "dbo", full) in
  forallb safe_char full = true ->
  strip (fst parts) <> [] -> strip (snd parts) <> [] ->
  parse_schema_table raw = Return (strip (fst parts), strip (snd parts)).
Proof.
  intros full parts Hs Ha Hb. rewrite parse_schema_table_eq. cbv zeta.
  fold full. fold parts.
  assert (N : full <> []).
  { intros E. subst parts. rewrite E in Hb. now apply Hb. }
  rewrite (SAFE_NAME_RE_match_all _ N Hs).
  destruct (strip (fst parts)); [congruence|].
  destruct (strip (snd parts)); [congruence|]. reflexivity.
Qed.

(** Claim C5, amended.  For every raw identifier made of allow-list
    characters only that contains at least one ['.'], the resolver splits it
    at the first ['.'] and strips whitespace from both halves: it returns
    the two stripped halves as schema and table when both are non-empty, and
    fails with the empty-part error when one of them is empty. *)
Theorem parse_schema_table_safe_dotted (raw : str) :
  forallb safe_char raw = true ->
  contains DOT raw = true ->
  parse_schema_table raw =
    if is_nil (strip (fst (split_once DOT raw)))
       || is_nil (strip (snd (split_once DOT raw)))
    then Raise EMPTY_PART
    else Return (strip (fst (split_once DOT raw)),
                 strip (snd (split_once DOT raw))).
Proof.
  intros Hs Hd.
  destruct (split_once_spec DOT raw Hd) as [E Ha].
  destruct (split_once DOT raw) as [a b]. simpl fst in *. simpl snd in *.
  assert (F : strip raw = lstrip a ++ DOT :: rstrip b).
  { rewrite E at 1. now apply strip_app_nonspace. }
  assert (La : contains DOT (lstrip a) = false).
  { apply contains_false. intros I. apply lstrip_incl in I.
    now apply contains_false in Ha. }
  rewrite parse_schema_table_eq. cbv zeta.
  rewrite (unquote_strip_safe raw Hs), (SAFE_NAME_RE_match_strip_safe raw Hs).
  rewrite F. replace (is_nil (lstrip a ++ DOT :: rstrip b)) with false
    by (now destruct (lstrip a)).
  simpl negb. cbv iota.
  replace (contains DOT (lstrip a ++ DOT :: rstrip b)) with true.
  2:{ symmetry. apply contains_true, in_elt. }
  rewrite (split_once_app DOT _ _ La). simpl fst. simpl snd.
  now rewrite strip_lstrip, strip_rstrip.
Qed.

(** Claim C6, amended.  For every raw identifier made of allow-list
    characters only that contains no ['.'], the resolver assigns the default
    schema ["dbo"] and takes the whole stripped string as the table name
    when that string is non-empty, and fails with the invalid-format error
    when the identifier is blank. *)
Theorem parse_schema_table_safe_undotted (raw : str) :
  forallb safe_char raw = true ->
  contains DOT raw = false ->
  parse_schema_table raw =
    if is_nil (strip raw) then Raise INVALID_FORMAT
    else Return (py "dbo", strip raw).
Proof.
  intros Hs Hd.
  assert (D : contains DOT (strip raw) = false).
  { apply contains_false. intros I. apply strip_incl in I.
    now apply contains_false in Hd. }
  rewrite parse_schema_table_eq. cbv zeta.
  rewrite (unquote_strip_safe raw Hs), (SAFE_NAME_RE_match_strip_safe raw Hs), D.
  simpl fst. simpl snd. rewrite strip_idem.
  destruct (strip raw) as [|c t]; simpl negb; simpl is_nil; cbv iota;
    [reflexivity|].
  replace (strip (py "dbo")) with (py "dbo") by (vm_compute; reflexivity).
  replace (is_nil (py "dbo")) with false by (vm_compute; reflexivity).
  reflexivity.
Qed.

(** The example of claim C5: ["dbo.Order Details"]. *)
Lemma parse_schema_table_safe_dotted_witness :
  forallb safe_char (py "dbo.Order Details") = true /\
  contains DOT (py "dbo.Order Details") = true /\
  parse_schema_table (py "dbo.Order Details")
  = Return (py "dbo", py "Order Details").
Proof.
  split; [vm_compute; reflexivity|].
  split; [vm_compute; reflexivity|].
  rewrite (parse_schema_table_safe_dotted (py "dbo.Order Details"));
    vm_compute; reflexivity.
Defined.

(** Claim C5 as stated fails on ["dbo."]: it is made of allowed
    characters and has a dot, and the resolver returns no pair for it. *)
Lemma parse_schema_table_dotted_empty_table :
  forallb safe_char (py "dbo.") = true /\
  contains DOT (py "dbo.") = true /\
  parse_schema_table (py "dbo.") = Raise EMPTY_PART /\
  parse_schema_table (py "dbo.")
  <> Return (strip (fst (split_once DOT (py "dbo."))),
             strip (snd (split_once DOT (py "dbo.")))).
Proof.
  split; [vm_compute; reflexivity|].
  split; [vm_compute; reflexivity|].
  split; [vm_compute; reflexivity|].
  vm_compute. discriminate.
Qed.

(** The example of claim C6: ["Orders"]. *)
Lemma parse_schema_table_safe_undotted_witness :
  forallb safe_char (py "Orders") = true /\
  contains DOT (py "Orders") = false /\
  parse_schema_table (py "Orders") = Return (py "dbo", py "Orders").
Proof.
  split; [vm_compute; reflexivity|].
  split; [vm_compute; reflexivity|].
  rewrite (parse_schema_table_safe_undotted (py "Orders"));
    vm_compute; reflexivity.
Defined.

(** Claim C6 as stated fails on the identifier made of one space: it is
    made of allowed characters, the pattern matches it, it has no dot, and
    the resolver returns no pair for it. *)
Lemma parse_schema_table_blank :
  forallb safe_char (py " ") = true /\
  SAFE_NAME_RE_match (py " ") = true /\
  contains DOT (py " ") = false /\
  parse_schema_table (py " ") = Raise INVALID_FORMAT /\
  parse_schema_table (py " ") <> Return (py "dbo", strip (py " ")).
Proof.
  split; [vm_compute; reflexivity|].
  split; [vm_compute; reflexivity|].
  split; [vm_compute; reflexivity|].
  split; [vm_compute; reflexivity|].
  vm_compute. discriminate.
Qed.

End Resolver.

(** ** Rows as objects *)

Section Rows.

Import App.

Lemma skipn_nth_error {A} (l : list A) (i : nat) (x : A) :
  nth_error l i = Some x -> skipn i l = x :: skipn (S i) l.
Proof.
  revert l. induction i as [|i IH]; intros [|y l]; simpl; try discriminate.
  - now intros [= ->].
  - intros H. now rewrite (IH _ H).
Qed.

(** The loop over the display columns assigns the cells of the row in
    turn; it fails only on a row with too few cells. *)
Lemma fill_row_update (d : Dict.t Cell) (i : nat) (cs : list str)
    (row : list Cell) :
  (i + length cs <= length row)%nat ->
  fill_row d i cs row = Return (Dict.update d (combine cs (skipn i row))).
Proof.
  revert d i. induction cs as [|c cs IH]; intros d i H; simpl in *.
  - reflexivity.
  - destruct (nth_error row i) as [v|] eqn:E.
    + rewrite (skipn_nth_error _ _ _ E). simpl. apply IH. lia.
    + apply nth_error_None in E. lia.
Qed.


(** The static-dictionary service builds the same object from the labels
    of its columns. *)
Lemma make_item_update (col_map : Dict.t str) (columns : list str)
    (row : list Cell) :
  Main.make_item col_map columns row
  = Dict.update Dict.empty (combine (display_columns col_map columns) row).
Proof.
  unfold Main.make_item, Dict.update. generalize (@Dict.empty Cell).
  revert row. induction columns as [|c cs IH]; intros [|v row] d; simpl; auto.
Qed.

Lemma combine_fst {A B} (l : list A) (l' : list B) :
  length l' = length l -> map fst (combine l l') = l.
Proof.
  revert l'. induction l as [|x l IH]; intros [|y l']; simpl; try discriminate;
    auto.
  intros [= H]. now rewrite IH.
Qed.

Lemma combine_app {A B} (p q : list A) (p' q' : list B) :
  length p' = length p -> combine (p ++ q) (p' ++ q') = combine p p' ++ combine q q'.
Proof.
  revert p'. induction p as [|x p IH]; intros [|y p']; simpl; try discriminate;
    auto.
  intros [= H]. now rewrite IH.
Qed.

Lemma in_combine_fst {A B} (l : list A) (l' : list B) (x : A) :
  In x (map fst (combine l l')) -> In x l.
Proof.
  rewrite in_map_iff. intros ([a b] & <- & H). simpl.
  now apply in_combine_l in H.
Qed.

(** Claim C9.  The loop that turns a row into an object keyed by display
    label, in both services, leaves one entry per label; under a label
    borne by several columns the entry holds the cell of the last of them,
    and the object has fewer entries than there are columns; when the
    labels are distinct the object pairs each label with the cell of its
    column, in the order of the columns. *)
Theorem fill_row_object (display_cols : list str) (row : list Cell) :
  length row = length display_cols ->
  exists d,
    fill_row Dict.empty 0 display_cols row = Return d /\
    (forall col_map columns,
        display_cols = display_columns col_map columns ->
        Main.make_item col_map columns row = d) /\
    NoDup (Dict.keys d) /\
    (forall l, In l (Dict.keys d) <-> In l display_cols) /\
    (forall p q rp rq l v,
        display_cols = p ++ l :: q -> ~ In l q ->
        row = rp ++ v :: rq -> length rp = length p ->
        Dict.get d l = Some v) /\
    (~ NoDup display_cols -> (length d < length display_cols)%nat) /\
    (NoDup display_cols -> d = combine display_cols row).
Proof.
  intros L. exists (Dict.update Dict.empty (combine display_cols row)).
  assert (F := combine_fst display_cols row L).
  split; [|split; [|split; [|split; [|split; [|split]]]]].
  - rewrite fill_row_update by (simpl; lia). reflexivity.
  - intros col_map columns ->. apply make_item_update.
  - apply update_NoDup. constructor.
  - intros l. rewrite update_keys, F. simpl. tauto.
  - intros p q rp rq l v -> N -> Lp.
    rewrite combine_app by assumption. simpl.
    apply update_get_last. intros I. apply N. now apply in_combine_fst in I.
  - intros N.
    replace (length display_cols) with (length (combine display_cols row))
      by (rewrite length_combine; lia).
    apply (update_length_dup Dict.empty); [simpl; now rewrite F|constructor].
  - intros N. now apply (update_fresh Dict.empty); simpl; rewrite F.
Qed.

(** A row of two columns sharing a label. *)
Lemma fill_row_object_witness :
  length [Number 1; Number 2] = length [py "ID"; py "ID"] /\
  exists d,
    fill_row Dict.empty 0 [py "ID"; py "ID"] [Number 1; Number 2] = Return d /\
    Dict.get d (py "ID") = Some (Number 2) /\ length d = 1%nat.
Proof.
  split; [reflexivity|].
  destruct (fill_row_object [py "ID"; py "ID"] [Number 1; Number 2] eq_refl)
    as (d & Hd & _ & _ & _ & Hl & _).
  exists d. split; [exact Hd|]. split.
  - apply (Hl [py "ID"] [] [Number 1] [] (py "ID") (Number 2));
      [reflexivity|simpl; tauto|reflexivity|reflexivity].
  - vm_compute in Hd. injection Hd as <-. reflexivity.
Defined.

End Rows.

(** ** Column labels *)

Section Labels.

Import App.

(** Claim C7.  Label merging is a per-column override: the list of display
    labels has the length of the list of physical columns and holds, at each
    position, the label the map gives to the column there, or the column
    name itself when the map has no entry for it; the static-dictionary
    service labels the entries of its row objects in the same way. *)
Theorem display_columns_override (label_map : Dict.t str) (cols : list str) :
  length (display_columns label_map cols) = length cols /\
  (forall i c,
      nth_error cols i = Some c ->
      nth_error (display_columns label_map cols) i
      = Some match Dict.get label_map c with
             | Some label => label
             | None => c
             end) /\
  (forall row,
      Main.make_item label_map cols row
      = Dict.update Dict.empty (combine (display_columns label_map cols) row)).
Proof.
  unfold display_columns. split; [apply length_map|]. split.
  - intros i c H. rewrite nth_error_map, H. reflexivity.
  - apply make_item_update.
Qed.

(** The sample table: one column with a label, one without. *)
Lemma display_columns_override_witness :
  nth_error [py "OrderID"; py "CustomerID"] 0 = Some (py "OrderID") /\
  nth_error [py "OrderID"; py "CustomerID"] 1 = Some (py "CustomerID") /\
  display_columns [(py "OrderID", py "訂單編號")] [py "OrderID"; py "CustomerID"]
  = [py "訂單編號"; py "CustomerID"].
Proof.
  split; [reflexivity|]. split; [reflexivity|].
  destruct (display_columns_override [(py "OrderID", py "訂單編號")]
              [py "OrderID"; py "CustomerID"]) as (L & H & _).
  assert (H0 := H 0%nat (py "OrderID") eq_refl).
  assert (H1 := H 1%nat (py "CustomerID") eq_refl).
  destruct (display_columns _ _) as [|a [|b [|c r]]]; try discriminate L.
  simpl in H0, H1. injection H0 as ->. injection H1 as ->.
  vm_compute. reflexivity.
Defined.

Lemma display_columns_empty (cols : list str) :
  display_columns Dict.empty cols = cols.
Proof. unfold display_columns. simpl. apply map_id. Qed.



Lemma fetch_table_comments_run (db : Database) (schema table : str)
    (tr : Trace) :
  fetch_table_comments db schema table tr =
  (match comment_rows db (comments_statement schema table) with
   | DbRows rows => Return (collect_comments Dict.empty rows)
   | DbFailure msg => Raise (DatabaseError msg)
   end, tr ++ [comments_statement schema table]).
Proof.
  unfold fetch_table_comments, bind, read_sql, ret.
  destruct (comment_rows db (comments_statement schema table)); reflexivity.
Qed.



End Labels.

(** ** The row-fetch endpoint *)

Section Endpoint.

Import App.

Lemma limit_in_range (limit : Z) :
  (1 <= limit <= 5000)%Z -> ((limit <? 1) || (limit >? 5000))%Z = false.
Proof.
  intros H. apply orb_false_iff. rewrite Z.gtb_ltb, !Z.ltb_ge. lia.
Qed.

Lemma limit_out_of_range (limit : Z) :
  (limit < 1 \/ 5000 < limit)%Z -> ((limit <? 1) || (limit >? 5000))%Z = true.
Proof.
  intros H. apply orb_true_iff. rewrite Z.gtb_ltb, !Z.ltb_lt. lia.
Qed.

Lemma read_table_bad_limit (db : Database) (table_full : str) (limit : Z)
    (tr : Trace) :
  (limit < 1 \/ 5000 < limit)%Z ->
  read_table db table_full (Some limit) tr
  = (Raise (HTTPException 400 LIMIT_MESSAGE), tr).
Proof.
  intros H. unfold read_table.
  rewrite (limit_out_of_range limit H). reflexivity.
Qed.

(** Claim C3.  A request without [limit] is served as with [limit = 100];
    for every limit below 1 or above 5000 the endpoint answers with the
    bad-request error on the limit, whatever the identifier, and leaves the
    list of executed statements as it was. *)
Theorem read_table_limit (db : Database) (table_full : str) (tr : Trace) :
  read_table db table_full None tr = read_table db table_full (Some 100%Z) tr /\
  forall limit,
    (limit < 1 \/ 5000 < limit)%Z ->
    read_table db table_full (Some limit) tr
    = (Raise (HTTPException 400 LIMIT_MESSAGE), tr).
Proof.
  split; [reflexivity|].
  intros limit H. now apply read_table_bad_limit.
Qed.

Lemma read_table_limit_witness :
  (0 < 1 \/ 5000 < 0)%Z /\
  read_table northwind (py "Orders; DROP TABLE x") (Some 0%Z) []
  = (Raise (HTTPException 400 LIMIT_MESSAGE), []).
Proof.
  split; [lia|].
  apply (proj2 (read_table_limit northwind (py "Orders; DROP TABLE x") [])).
  lia.
Defined.

(** An identifier the resolver refuses is answered with a bad-request
    error carrying the message of the resolver, and no statement is
    executed. *)
Lemma read_table_invalid_identifier (db : Database) (table_full : str)
    (limit : Z) (tr : Trace) (msg : str) :
  (1 <= limit <= 5000)%Z ->
  parse_schema_table table_full = Raise (ValueError msg) ->
  read_table db table_full (Some limit) tr = (Raise (HTTPException 400 msg), tr).
Proof.
  intros L E. unfold read_table. rewrite (limit_in_range limit L), E.
  reflexivity.
Qed.

(** The run of the endpoint on a valid limit and a resolved identifier. *)
Lemma read_table_run (db : Database) (table_full : str) (limit : Z)
    (tr : Trace) (schema table : str) :
  (1 <= limit <= 5000)%Z ->
  parse_schema_table table_full = Return (schema, table) ->
  let cs := comments_statement schema table in
  let rs := rows_statement limit schema table in
  read_table db table_full (Some limit) tr =
  match comment_rows db cs with
  | DbFailure msg => (Raise (DatabaseError msg), tr ++ [cs])
  | DbRows crows =>
    match result_set db rs with
    | DbFailure msg => (Raise (DatabaseError msg), tr ++ [cs; rs])
    | DbRows (cols, rows) =>
      let display_cols :=
        display_columns (collect_comments Dict.empty crows) cols in
      match fill_rows display_cols rows with
      | Return out =>
        (Return {| table := schema ++ py "." ++ table;
                   columns := display_cols;
                   rows := out |}, tr ++ [cs; rs])
      | Raise e => (Raise e, tr ++ [cs; rs])
      end
    end
  end.
Proof.
  intros L E cs rs. unfold read_table.
  rewrite (limit_in_range limit L), E.
  unfold bind at 1. rewrite fetch_table_comments_run. fold cs.
  destruct (comment_rows db cs) as [crows|msg]; [|reflexivity].
  unfold bind, execute, lift, ret. fold rs.
  replace ((tr ++ [cs]) ++ [rs]) with (tr ++ [cs; rs])
    by (now rewrite <- app_assoc).
  destruct (result_set db rs) as [[cols rows]|msg]; simpl; [|reflexivity].
  destruct (fill_rows _ rows); reflexivity.
Qed.




(** Claim C1 fails on ["Orders%0A"].  Stripped and decoded, it ends with a
    newline, a character outside the allow-list; the resolver returns a
    pair for it all the same, and the endpoint goes on to the database. *)
Theorem parse_schema_table_trailing_newline :
  unquote (strip (py "Orders%0A")) = py "Orders" ++ [NEWLINE] /\
  safe_char NEWLINE = false /\
  parse_schema_table (py "Orders%0A") = Return (py "dbo", py "Orders") /\
  forall db tr, exists stmts,
    snd (read_table db (py "Orders%0A") None tr)
    = tr ++ comments_statement (py "dbo") (py "Orders") :: stmts.
Proof.
  assert (E : parse_schema_table (py "Orders%0A")
              = Return (py "dbo", py "Orders")) by (vm_compute; reflexivity).
  split; [vm_compute; reflexivity|]. split; [reflexivity|].
  split; [exact E|]. intros db tr.
  change (read_table db (py "Orders%0A") None tr)
    with (read_table db (py "Orders%0A") (Some 100%Z) tr).
  rewrite (read_table_run db _ 100 tr _ _ ltac:(lia) E). cbv zeta.
  destruct (comment_rows db _); [|now exists []].
  destruct (result_set db _) as [[cols rows]|msg]; [|now eexists].
  destruct (fill_rows _ rows); now eexists.
Qed.

(** The statements the endpoint executes are the catalog query and the row
    query of the resolved identifier, in this order; their texts are the
    same for all identifiers. *)
Lemma read_table_statements (db : Database) (table_full : str)
    (limit : Z) (tr : Trace) :
  snd (read_table db table_full (Some limit) tr) = tr \/
  exists schema table,
    parse_schema_table table_full = Return (schema, table) /\
    (snd (read_table db table_full (Some limit) tr)
     = tr ++ [comments_statement schema table] \/
     snd (read_table db table_full (Some limit) tr)
     = tr ++ [comments_statement schema table;
              rows_statement limit schema table]).
Proof.
  destruct (Z.ltb_spec limit 1) as [L1|L1].
  { left. now rewrite read_table_bad_limit by lia. }
  destruct (Z.ltb_spec 5000 limit) as [L2|L2].
  { left. now rewrite read_table_bad_limit by lia. }
  destruct (parse_schema_table table_full) as [[schema table]|e] eqn:E.
  - right. exists schema, table. split; [reflexivity|].
    rewrite (read_table_run db _ limit tr _ _ ltac:(lia) E). cbv zeta.
    destruct (comment_rows db _); [|now left].
    destruct (result_set db _) as [[cols rows]|msg]; [|now right].
    destruct (fill_rows _ rows); now right.
  - left. destruct (parse_schema_table_raises _ _ E) as [->| ->];
      now rewrite (read_table_invalid_identifier db _ limit tr _ ltac:(lia) E).
Qed.


(** The sample table through the endpoint: [OrderID] is shown under its
    comment, [CustomerID] under its own name, and two rows come back. *)
Example read_table_orders :
  fst (read_table northwind (py "dbo.Orders") (Some 2%Z) [])
  = Return {| table := py "dbo.Orders";
              columns := [py "訂單編號"; py "CustomerID"];
              rows := [[(py "訂單編號", Number 10248);
                        (py "CustomerID", Text (py "VINET"))];
                       [(py "訂單編號", Number 10249);
                        (py "CustomerID", Text (py "TOMSP"))]] |}.
Proof. vm_compute. reflexivity. Qed.

(** A table the database does not hold: the error of the row query is
    raised, no empty row set is returned. *)
Example read_table_no_such_table :
  fst (read_table northwind (py "dbo.NoSuchTable") (Some 10%Z) [])
  = Raise (DatabaseError (py "Invalid object name")).
Proof. vm_compute. reflexivity. Qed.

Lemma statement_texts (limit : Z) (schema table schema' table' : str) :
  sql_text (comments_statement schema table)
  = sql_text (comments_statement schema' table') /\
  sql_text (rows_statement limit schema table)
  = sql_text (rows_statement limit schema' table').
Proof.
  unfold comments_statement, rows_statement. cbn [sql_text].
  split; reflexivity.
Qed.

End Endpoint.

(** ** The text of the row query *)

Section QueryText.

(** The static-dictionary service executes one statement, the row query,
    whose text holds the identifier between the brackets; it binds no
    parameter. *)
Lemma get_table_data_statement (db : Database) (table : str) (tr : Trace) :
  snd (Main.get_table_data db table tr)
  = tr ++ [{| sql_text := py "SELECT TOP 100 * FROM dbo.[" ++ table ++ py "]";
              bound := [] |}].
Proof.
  unfold Main.get_table_data, Main.run_query, Main.table_data_sql, bind, execute.
  destruct (result_set db _) as [[columns rows]|msg]; reflexivity.
Qed.

(** Two identifiers give two texts. *)
Lemma table_data_sql_injective (table table' : str) :
  Main.table_data_sql table = Main.table_data_sql table' -> table = table'.
Proof.
  unfold Main.table_data_sql. intros H.
  apply app_inv_head in H. now apply app_inv_tail in H.
Qed.

(** Claim C2 fails in the static-dictionary service.  On the identifier
    [INJECTION] the text of the statement it executes is the identifier
    pasted between the brackets, so that the text holds a second statement,
    and no parameter is bound. *)
Theorem get_table_data_concatenates (db : Database) (tr : Trace) :
  snd (Main.get_table_data db INJECTION tr)
  = tr ++ [{| sql_text :=
                py "SELECT TOP 100 * FROM dbo.[Orders]; DROP TABLE Orders; --]";
              bound := [] |}].
Proof.
  rewrite get_table_data_statement. vm_compute. reflexivity.
Qed.

End QueryText.

(** ** Determinism *)

Section Determinism.

Import App.

Lemma oblivious_ret {A} (a : A) : oblivious (ret a).
Proof. intros tr tr'. reflexivity. Qed.

Lemma oblivious_raise {A} (e : Exception) : oblivious (@raise A e).
Proof. intros tr tr'. reflexivity. Qed.

Lemma oblivious_lift {A} (o : Outcome A) : oblivious (lift o).
Proof. intros tr tr'. reflexivity. Qed.

Lemma oblivious_read_sql (db : Database) (stmt : Statement) :
  oblivious (read_sql db stmt).
Proof. intros tr tr'. reflexivity. Qed.

Lemma oblivious_execute (db : Database) (stmt : Statement) :
  oblivious (execute db stmt).
Proof. intros tr tr'. reflexivity. Qed.

Lemma oblivious_bind {A B} (m : DB A) (k : A -> DB B) :
  oblivious m -> (forall a, oblivious (k a)) -> oblivious (bind m k).
Proof.
  intros Hm Hk tr tr'. unfold bind. specialize (Hm tr tr').
  destruct (m tr) as [[a|e] t], (m tr') as [[a'|e'] t']; simpl in Hm;
    try discriminate.
  - injection Hm as <-. apply Hk.
  - simpl. congruence.
Qed.

Lemma fetch_table_comments_oblivious (db : Database) (schema table : str) :
  oblivious (fetch_table_comments db schema table).
Proof.
  apply oblivious_bind; [apply oblivious_read_sql|].
  intros df. apply oblivious_ret.
Qed.

(** The answer of the endpoint depends on the database, the identifier
    and the limit only. *)
Lemma read_table_oblivious (db : Database) (table_full : str)
    (limit : option Z) :
  oblivious (read_table db table_full limit).
Proof.
  unfold read_table.
  destruct (_ || _)%bool; [apply oblivious_raise|].
  destruct (parse_schema_table table_full) as [[schema table]|e].
  - apply oblivious_bind; [apply fetch_table_comments_oblivious|].
    intros comment_map.
    apply oblivious_bind; [apply oblivious_execute|]. intros [cols rows].
    apply oblivious_bind; [apply oblivious_lift|]. intros out.
    apply oblivious_ret.
  - destruct e; apply oblivious_raise.
Qed.


End Determinism.

(** * Further properties *)

(** ** What the resolver returns *)

Section Canonical.

Import App.

Lemma py_dot : py "." = [DOT].
Proof. vm_compute. reflexivity. Qed.

Lemma rstrip_app_space (x : str) (c : char) :
  is_space c = true -> rstrip (x ++ [c]) = rstrip x.
Proof.
  intros E. induction x as [|a x IH]; simpl app.
  - rewrite rstrip_cons, E. reflexivity.
  - now rewrite !rstrip_cons, IH.
Qed.

Lemma strip_app_space (x : str) (c : char) :
  is_space c = true -> strip (x ++ [c]) = strip x.
Proof.
  intros E. unfold strip.
  now rewrite <- !lstrip_rstrip, rstrip_app_space.
Qed.

Lemma strip_fixed_lstrip (s : str) : strip s = s -> lstrip s = s.
Proof.
  intros E. rewrite <- E at 1. unfold strip.
  now rewrite <- lstrip_rstrip, lstrip_idem, lstrip_rstrip.
Qed.

Lemma strip_fixed_rstrip (s : str) : strip s = s -> rstrip s = s.
Proof.
  intros E. rewrite <- E at 1. unfold strip. now rewrite rstrip_idem.
Qed.

(** Before the last character of a string the pattern accepts, all
    characters are allowed ones. *)
Lemma safe_rest_app (a b : str) :
  safe_rest (a ++ b) = true -> b <> [] ->
  forallb safe_char a = true /\ safe_rest b = true.
Proof.
  intros H N. induction a as [|c a IH]; simpl in *; [auto|].
  destruct (safe_char c).
  - now apply IH.
  - apply andb_true_iff in H as [_ H]. destruct a, b; simpl in H; congruence.
Qed.

Lemma safe_rest_strip (s : str) :
  safe_rest s = true -> forallb safe_char (strip s) = true.
Proof.
  intros H. apply safe_rest_spec in H as (p & Hp & [->| ->]).
  - revert Hp. apply forallb_incl, strip_incl.
  - rewrite strip_app_space by reflexivity.
    revert Hp. apply forallb_incl, strip_incl.
Qed.

Lemma SAFE_NAME_RE_match_rest (s : str) :
  SAFE_NAME_RE_match s = true -> safe_rest s = true.
Proof.
  destruct s as [|c t]; simpl; [discriminate|].
  rewrite andb_true_iff. now intros [-> H].
Qed.

Lemma resolved_canonical (raw schema table : str) :
  parse_schema_table raw = Return (schema, table) -> canonical schema table.
Proof.
  rewrite parse_schema_table_eq. cbv zeta.
  destruct (SAFE_NAME_RE_match (unquote (strip raw))) eqn:M; [|discriminate].
  apply SAFE_NAME_RE_match_rest in M.
  set (full := unquote (strip raw)) in *.
  match goal with |- (if ?b then _ else _) = _ -> _ => destruct b eqn:G end;
    [discriminate|].
  apply orb_false_iff in G as [Ga Gb]. intros [= <- <-].
  assert (P : forall parts,
             forallb safe_char (fst parts) = true ->
             safe_rest (snd parts) = true ->
             contains DOT (fst parts) = false ->
             is_nil (strip (fst parts)) = false ->
             is_nil (strip (snd parts)) = false ->
             canonical (strip (fst parts)) (strip (snd parts))).
  { intros [a b] Ha Hb Hd Na Nb. simpl fst in *. simpl snd in *.
    repeat split.
    - intros E. now rewrite E in Na.
    - intros E. now rewrite E in Nb.
    - revert Ha. apply forallb_incl, strip_incl.
    - now apply safe_rest_strip.
    - apply strip_idem.
    - apply strip_idem.
    - apply contains_false. intros I. apply strip_incl in I.
      now apply contains_false in Hd. }
  destruct (contains DOT full) eqn:D.
  - destruct (split_once_spec DOT full D) as [E Ha].
    destruct (split_once DOT full) as [a b]. simpl fst in *. simpl snd in *.
    rewrite E in M.
    destruct (safe_rest_app a (DOT :: b) M ltac:(discriminate)) as [Sa Sb].
    apply (P (a, b)); auto.
  - apply (P (py "dbo", full)); auto; vm_compute; reflexivity.
Qed.

Lemma canonical_resolves (schema table : str) :
  canonical schema table ->
  parse_schema_table (schema ++ py "." ++ table) = Return (schema, table).
Proof.
  intros (Ns & Nt & Ss & St & Es & Et & D). rewrite py_dot. simpl app.
  assert (S : forallb safe_char (schema ++ DOT :: table) = true).
  { rewrite forallb_app. simpl. now rewrite Ss, St. }
  assert (F : strip (schema ++ DOT :: table) = schema ++ DOT :: table).
  { rewrite strip_app_nonspace by reflexivity.
    now rewrite (strip_fixed_lstrip _ Es), (strip_fixed_rstrip _ Et). }
  assert (U : unquote (strip (schema ++ DOT :: table)) = schema ++ DOT :: table).
  { now rewrite (unquote_strip_safe _ S). }
  assert (C : contains DOT (schema ++ DOT :: table) = true).
  { apply contains_true, in_elt. }
  generalize (parse_schema_table_accepts (schema ++ DOT :: table)).
  cbv zeta. rewrite U, C, (split_once_app DOT _ _ D). simpl fst. simpl snd.
  rewrite Es, Et. auto.
Qed.

(** Property X1.  The pairs the resolver returns keep the invariant of a table
    identifier: both names are non-empty, made of allow-list characters
    only, free of whitespace at both ends, and the schema has no dot.  This
    holds also for the inputs that end with an encoded newline. *)
Theorem parse_schema_table_invariant (raw schema table : str) :
  parse_schema_table raw = Return (schema, table) ->
  schema <> [] /\ table <> [] /\
  forallb safe_char schema = true /\ forallb safe_char table = true /\
  (forall c, In c schema \/ In c table -> c <> NEWLINE /\ c <> PERCENT) /\
  strip schema = schema /\ strip table = table /\
  contains DOT schema = false.
Proof.
  intros H. destruct (resolved_canonical _ _ _ H) as (Ns & Nt & Ss & St & Es & Et & D).
  repeat split; auto;
    destruct H0 as [I|I];
    [rewrite forallb_forall in Ss; apply Ss in I
    |rewrite forallb_forall in St; apply St in I
    |rewrite forallb_forall in Ss; apply Ss in I
    |rewrite forallb_forall in St; apply St in I];
    intros ->; discriminate I.
Qed.

Lemma parse_schema_table_invariant_witness :
  parse_schema_table (py "  Sales.Order%20Details%0A")
  = Return (py "Sales", py "Order Details") /\
  forallb safe_char (py "Order Details") = true /\
  strip (py "Order Details") = py "Order Details".
Proof.
  assert (E : parse_schema_table (py "  Sales.Order%20Details%0A")
              = Return (py "Sales", py "Order Details"))
    by (vm_compute; reflexivity).
  split; [exact E|].
  destruct (parse_schema_table_invariant _ _ _ E)
    as (_ & _ & _ & St & _ & _ & Et & _).
  split; assumption.
Defined.

End Canonical.

(** ** Names that resolve to themselves *)

Section Names.

Import App.

(** Property X2.  The resolver accepts exactly the identifiers that, stripped and
    decoded, are a non-empty run of allow-list characters, followed or not
    by one newline, and whose two parts are not blank. *)
Theorem parse_schema_table_accepted (raw : str) :
  let full := unquote (strip raw) in
  let parts :=
    if contains DOT full then split_once DOT full else (py "dbo", full) in
  (exists schema table, parse_schema_table raw = Return (schema, table)) <->
  (exists p, p <> [] /\ forallb safe_char p = true /\
             (full = p \/ full = p ++ [NEWLINE])) /\
  strip (fst parts) <> [] /\ strip (snd parts) <> [].
Proof.
  intros full parts. rewrite parse_schema_table_eq. cbv zeta.
  fold full. fold parts. rewrite <- SAFE_NAME_RE_match_spec.
  destruct (SAFE_NAME_RE_match full).
  - destruct (strip (fst parts)) as [|a sa]; simpl is_nil; simpl orb.
    + split; [intros (s & t & H); discriminate H|intros (_ & N & _); congruence].
    + destruct (strip (snd parts)) as [|b sb]; simpl is_nil; cbv iota.
      * split; [intros (s & t & H); discriminate H
               |intros (_ & _ & N); congruence].
      * split; [intros _; repeat split; discriminate|intros _; eauto].
  - split; [intros (s & t & H); discriminate H|intros (H & _); discriminate H].
Qed.

(** Property X3.  An identifier written [schema.table] resolves to the pair
    [(schema, table)] exactly when the pair is canonical; a schema with a
    dot, a name with a character outside the allow-list or with whitespace
    at an end resolves to another pair or to none. *)
Theorem parse_schema_table_own_name (schema table : str) :
  parse_schema_table (schema ++ py "." ++ table) = Return (schema, table) <->
  canonical schema table.
Proof. split; [apply resolved_canonical|apply canonical_resolves]. Qed.

Lemma list_tables_run (tables_rows : Statement -> DbResult (list (str * str)))
    (tr : Trace) :
  list_tables tables_rows tr =
  (match tables_rows tables_statement with
   | DbRows df => Return (map (fun r => fst r ++ py "." ++ snd r) df)
   | DbFailure msg => Raise (DatabaseError msg)
   end, tr ++ [tables_statement]).
Proof.
  unfold list_tables, bind, ret.
  destruct (tables_rows tables_statement); reflexivity.
Qed.

(** Property X4.  The table list has one entry per row of the catalog, in the order of
    the rows; the entry of a row is its schema and table joined by a dot,
    and the resolver gives back the schema and the table of the row from it
    exactly when the two names are canonical. *)
Theorem list_tables_entries
    (tables_rows : Statement -> DbResult (list (str * str)))
    (tr : Trace) (df : list (str * str)) :
  tables_rows tables_statement = DbRows df ->
  exists tables,
    list_tables tables_rows tr = (Return tables, tr ++ [tables_statement]) /\
    length tables = length df /\
    forall i schema table,
      nth_error df i = Some (schema, table) ->
      nth_error tables i = Some (schema ++ py "." ++ table) /\
      (parse_schema_table (schema ++ py "." ++ table) = Return (schema, table)
       <-> canonical schema table).
Proof.
  intros E. exists (map (fun r => fst r ++ py "." ++ snd r) df).
  split; [rewrite list_tables_run, E; reflexivity|].
  split; [apply length_map|].
  intros i schema table H. split.
  - apply (map_nth_error (fun r => fst r ++ py "." ++ snd r) _ _ H).
  - split; [apply resolved_canonical|apply canonical_resolves].
Qed.

Lemma list_tables_entries_witness :
  sample_tables tables_statement
  = DbRows [(py "dbo", py "Order Details"); (py "dbo", py "Orders");
            (py "my.schema", py "Orders")] /\
  fst (list_tables sample_tables [])
  = Return [py "dbo.Order Details"; py "dbo.Orders"; py "my.schema.Orders"] /\
  parse_schema_table (py "dbo.Order Details")
  = Return (py "dbo", py "Order Details") /\
  parse_schema_table (py "my.schema.Orders")
  <> Return (py "my.schema", py "Orders").
Proof.
  split; [reflexivity|].
  destruct (list_tables_entries sample_tables [] _ eq_refl)
    as (tables & R & L & H).
  split; [vm_compute; reflexivity|].
  split.
  - destruct (H 0%nat (py "dbo") (py "Order Details") eq_refl) as [_ [_ C]].
    replace (py "dbo.Order Details") with (py "dbo" ++ py "." ++ py "Order Details")
      by (vm_compute; reflexivity).
    apply C. repeat split; try (vm_compute; reflexivity);
      vm_compute; discriminate.
  - destruct (H 2%nat (py "my.schema") (py "Orders") eq_refl) as [_ [C _]].
    replace (py "my.schema.Orders") with (py "my.schema" ++ py "." ++ py "Orders")
      by (vm_compute; reflexivity).
    intros P. apply C in P. destruct P as (_ & _ & _ & _ & _ & _ & D).
    vm_compute in D. discriminate D.
Defined.

Lemma limit_in_range_inv (limit : Z) :
  ((limit <? 1) || (limit >? 5000))%Z = false -> (1 <= limit <= 5000)%Z.
Proof.
  intros H. apply orb_false_iff in H. rewrite Z.gtb_ltb, !Z.ltb_ge in H. lia.
Qed.

(** The endpoint looks at its identifier through the resolver only. *)
Lemma read_table_same_identifier (db : Database) (raw raw' : str)
    (limit : option Z) (tr tr' : Trace) :
  parse_schema_table raw = parse_schema_table raw' ->
  fst (read_table db raw limit tr) = fst (read_table db raw' limit tr').
Proof.
  intros E. rewrite (read_table_oblivious db raw' limit tr' tr).
  unfold read_table. now rewrite E.
Qed.

Lemma read_table_success_inv (db : Database) (raw : str) (limit : option Z)
    (tr tr' : Trace) (resp : Response) :
  read_table db raw limit tr = (Return resp, tr') ->
  exists schema tbl,
    parse_schema_table raw = Return (schema, tbl) /\
    table resp = schema ++ py "." ++ tbl.
Proof.
  unfold read_table.
  destruct (_ || _)%bool; [discriminate|].
  destruct (parse_schema_table raw) as [[schema tbl]|e].
  - intros H. exists schema, tbl. split; [reflexivity|].
    unfold bind, fetch_table_comments, bind, read_sql, execute, lift, ret in H.
    destruct (of_db_result (comment_rows db _)); [|discriminate].
    destruct (of_db_result (result_set db _)) as [[cols rs]|]; [|discriminate].
    destruct (fill_rows _ rs); [|discriminate].
    injection H as <- _. reflexivity.
  - destruct e; discriminate.
Qed.

(** Property X5.  The [table] field of an answer names the table that was read: asking
    for it again, with the same limit on the same database, gives the same
    answer. *)
Theorem read_table_refetch (db : Database) (raw : str) (limit : option Z)
    (tr tr' tr2 : Trace) (resp : Response) :
  read_table db raw limit tr = (Return resp, tr') ->
  fst (read_table db (table resp) limit tr2) = Return resp.
Proof.
  intros H.
  destruct (read_table_success_inv _ _ _ _ _ _ H) as (schema & tbl & P & ->).
  rewrite (read_table_same_identifier db _ raw limit tr2 tr).
  - now rewrite H.
  - rewrite P. now apply canonical_resolves, (resolved_canonical raw).
Qed.

Lemma read_table_refetch_witness :
  exists resp tr',
    read_table northwind (py " dbo.Orders%0A") (Some 2%Z) [] = (Return resp, tr') /\
    table resp = py "dbo.Orders" /\
    fst (read_table northwind (py "dbo.Orders") (Some 2%Z) []) = Return resp.
Proof.
  destruct (read_table northwind (py " dbo.Orders%0A") (Some 2%Z) [])
    as [[resp|e] tr'] eqn:E; [|vm_compute in E; discriminate E].
  exists resp, tr'. split; [reflexivity|].
  assert (T : table resp = py "dbo.Orders").
  { vm_compute in E. injection E as <- _. vm_compute. reflexivity. }
  split; [exact T|]. rewrite <- T.
  apply (read_table_refetch northwind _ (Some 2%Z) [] tr' [] resp E).
Defined.

(** Property X6.  An identifier the resolver refuses is answered with a bad-request
    error that carries the message of the resolver, one of its two, and no
    statement is executed. *)
Theorem read_table_refuses (db : Database) (raw : str) (limit : Z)
    (tr : Trace) (e : Exception) :
  (1 <= limit <= 5000)%Z ->
  parse_schema_table raw = Raise e ->
  (e = INVALID_FORMAT \/ e = EMPTY_PART) /\
  exists msg,
    e = ValueError msg /\
    read_table db raw (Some limit) tr = (Raise (HTTPException 400 msg), tr).
Proof.
  intros L H. split; [now apply (parse_schema_table_raises raw)|].
  destruct (parse_schema_table_raises raw e H) as [->| ->];
    eexists; (split; [reflexivity|]);
    now apply read_table_invalid_identifier.
Qed.

Lemma read_table_refuses_witness :
  (1 <= 10 <= 5000)%Z /\
  parse_schema_table (py "Orders; DROP TABLE x") = Raise INVALID_FORMAT /\
  exists msg,
    read_table northwind (py "Orders; DROP TABLE x") (Some 10%Z) []
    = (Raise (HTTPException 400 msg), []).
Proof.
  assert (L : (1 <= 10 <= 5000)%Z) by lia.
  assert (E : parse_schema_table (py "Orders; DROP TABLE x") = Raise INVALID_FORMAT)
    by (vm_compute; reflexivity).
  split; [exact L|]. split; [exact E|].
  destruct (read_table_refuses northwind _ 10 [] _ L E) as (_ & msg & _ & R).
  exists msg. exact R.
Defined.

End Names.

(** ** The statements and the answers of the row-fetch endpoint *)

Section Answers.

Import App.


(** Property X8.  A row query that fails, as for a table the database does not hold, is
    raised to the caller with the message of the database, after the two
    statements; no answer with an empty row set is made up. *)
Theorem read_table_row_query_failure (db : Database) (raw : str) (limit : Z)
    (tr : Trace) (schema tbl : str) (crows : list (str * option str))
    (msg : str) :
  (1 <= limit <= 5000)%Z ->
  parse_schema_table raw = Return (schema, tbl) ->
  comment_rows db (comments_statement schema tbl) = DbRows crows ->
  result_set db (rows_statement limit schema tbl) = DbFailure msg ->
  read_table db raw (Some limit) tr
  = (Raise (DatabaseError msg),
     tr ++ [comments_statement schema tbl; rows_statement limit schema tbl]).
Proof.
  intros L E C R. rewrite (read_table_run db _ limit tr _ _ L E). cbv zeta.
  now rewrite C, R.
Qed.

Lemma read_table_row_query_failure_witness :
  (1 <= 10 <= 5000)%Z /\
  parse_schema_table (py "dbo.NoSuchTable") = Return (py "dbo", py "NoSuchTable") /\
  fst (read_table northwind (py "dbo.NoSuchTable") (Some 10%Z) [])
  = Raise (DatabaseError (py "Invalid object name")).
Proof.
  assert (L : (1 <= 10 <= 5000)%Z) by lia.
  assert (E : parse_schema_table (py "dbo.NoSuchTable")
              = Return (py "dbo", py "NoSuchTable")) by (vm_compute; reflexivity).
  split; [exact L|]. split; [exact E|].
  rewrite (read_table_row_query_failure northwind _ 10 [] _ _ []
             (py "Invalid object name") L E);
    vm_compute; reflexivity.
Defined.






End Answers.

(** ** The columns and the rows of an answer *)

Section Delivery.

Import App.




(** The loop over the display columns fails on a row that has too few
    cells. *)
Lemma fill_row_short (d : Dict.t Cell) (i : nat) (cs : list str)
    (row : list Cell) :
  (i <= length row)%nat -> (length row < i + length cs)%nat ->
  fill_row d i cs row = Raise IndexError.
Proof.
  revert d i. induction cs as [|c cs IH]; intros d i H1 H2; simpl in *; [lia|].
  destruct (nth_error row i) as [v|] eqn:E; [|reflexivity].
  apply IH; [|lia].
  assert (i < length row)%nat; [|lia].
  apply nth_error_Some. congruence.
Qed.

Lemma fill_row_raises (d : Dict.t Cell) (i : nat) (cs : list str)
    (row : list Cell) (e : Exception) :
  fill_row d i cs row = Raise e -> e = IndexError.
Proof.
  revert d i. induction cs as [|c cs IH]; intros d i; simpl; [discriminate|].
  destruct (nth_error row i); [apply IH|now intros [= <-]].
Qed.

Lemma fill_rows_short (cs : list str) (rs : list (list Cell)) :
  Exists (fun row => (length row < length cs)%nat) rs ->
  fill_rows cs rs = Raise IndexError.
Proof.
  induction rs as [|row rs IH]; intros H; [inversion H|]. simpl.
  destruct (fill_row Dict.empty 0 cs row) as [d|e] eqn:F.
  - inversion H as [? ? S|? ? S]; subst.
    + rewrite fill_row_short in F by (simpl; lia). discriminate F.
    + now rewrite (IH S).
  - now rewrite (fill_row_raises _ _ _ _ _ F).
Qed.

(** Property X11.  An answer of the database with a row of fewer cells than columns makes
    the endpoint fail with [IndexError], after its two statements; the
    rows before the short one are not delivered. *)
Theorem read_table_short_row (db : Database) (raw : str) (limit : Z)
    (tr : Trace) (schema tbl : str) (crows : list (str * option str))
    (cols : list str) (rs : list (list Cell)) :
  (1 <= limit <= 5000)%Z ->
  parse_schema_table raw = Return (schema, tbl) ->
  comment_rows db (comments_statement schema tbl) = DbRows crows ->
  result_set db (rows_statement limit schema tbl) = DbRows (cols, rs) ->
  Exists (fun row => (length row < length cols)%nat) rs ->
  read_table db raw (Some limit) tr
  = (Raise IndexError,
     tr ++ [comments_statement schema tbl; rows_statement limit schema tbl]).
Proof.
  intros L E C R S. rewrite (read_table_run db _ limit tr _ _ L E). cbv zeta.
  rewrite C, R, fill_rows_short; [reflexivity|].
  unfold display_columns. now rewrite length_map.
Qed.

Lemma read_table_short_row_witness :
  (1 <= 5 <= 5000)%Z /\
  parse_schema_table (py "T") = Return (py "dbo", py "T") /\
  fst (read_table ragged (py "T") (Some 5%Z) []) = Raise IndexError.
Proof.
  assert (L : (1 <= 5 <= 5000)%Z) by lia.
  assert (E : parse_schema_table (py "T") = Return (py "dbo", py "T"))
    by (vm_compute; reflexivity).
  split; [exact L|]. split; [exact E|].
  rewrite (read_table_short_row ragged (py "T") 5 [] (py "dbo") (py "T") []
             [py "A"; py "B"] [[Number 1; Number 2]; [Number 3]] L E).
  - reflexivity.
  - reflexivity.
  - reflexivity.
  - apply Exists_cons_tl, Exists_cons_hd. simpl. lia.
Defined.





End Delivery.

(** ** The static-dictionary service *)

Section StaticLabels.

Import App.

Lemma distinct_NoDup (l : list str) : distinct l = true -> NoDup l.
Proof.
  induction l as [|x t IH]; simpl; [constructor|].
  rewrite andb_true_iff, negb_true_iff. intros [N D].
  constructor; [|now apply IH].
  intros I. assert (X : existsb (str_eqb x) t = true); [|congruence].
  apply existsb_exists. exists x. split; [assumption|apply str_eqb_refl].
Qed.

Lemma get_in {V} (d : Dict.t V) (k : str) (v : V) :
  Dict.get d k = Some v -> In (k, v) d.
Proof.
  induction d as [|[k' v'] d IH]; simpl; [discriminate|].
  destruct (str_eqb k' k) eqn:E.
  - apply str_eqb_eq in E. intros [= ->]. left. now subst.
  - auto.
Qed.

Lemma in_keys_get {V} (d : Dict.t V) (k : str) :
  In k (Dict.keys d) -> exists v, Dict.get d k = Some v.
Proof.
  intros I. destruct (Dict.get d k) as [v|] eqn:G; [eauto|].
  now apply get_none in G.
Qed.

Lemma snd_injective {A B} (l : list (A * B)) (a a' : A) (b : B) :
  NoDup (map snd l) -> In (a, b) l -> In (a', b) l -> a = a'.
Proof.
  induction l as [|[x y] l IH]; simpl; [tauto|].
  intros N [E|I] [E'|I']; inversion N as [|? ? Ny Nl]; subst.
  - congruence.
  - injection E as -> ->. exfalso. apply Ny.
    change b with (snd (a', b)). now apply in_map.
  - injection E' as -> ->. exfalso. apply Ny.
    change b with (snd (a, b)). now apply in_map.
  - auto.
Qed.

(** In every table of the dictionary the columns are distinct and so are
    the labels. *)
Lemma COLUMN_NAME_MAP_distinct :
  forallb (fun entry => distinct (map fst (snd entry))
                        && distinct (map snd (snd entry)))
          Main.COLUMN_NAME_MAP = true.
Proof. vm_compute. reflexivity. Qed.

Lemma COLUMN_NAME_MAP_tables (name : str) (col_map : Dict.t str) :
  Dict.get Main.COLUMN_NAME_MAP name = Some col_map ->
  NoDup (Dict.keys col_map) /\ NoDup (map snd col_map).
Proof.
  intros G. apply get_in in G. assert (H := COLUMN_NAME_MAP_distinct).
  rewrite forallb_forall in H. apply H, andb_true_iff in G as [K L].
  split; now apply distinct_NoDup.
Qed.

(** Property X13.  Without a table name, or with a name that the dictionary does not
    hold, the rows are keyed by the physical column names: nothing is
    relabelled.  The answer has one object per row. *)
Theorem run_query_unmapped (db : Database) (sql : str)
    (table_name : option str) (tr : Trace) (columns : list str)
    (rs : list (list Cell)) :
  (forall name, table_name = Some name ->
                Dict.get Main.COLUMN_NAME_MAP name = None) ->
  result_set db {| sql_text := sql; bound := [] |} = DbRows (columns, rs) ->
  Main.run_query db sql table_name tr
  = (Return (map (fun row => Dict.update Dict.empty (combine columns row)) rs),
     tr ++ [{| sql_text := sql; bound := [] |}]).
Proof.
  intros U R. unfold Main.run_query, bind, execute, ret. rewrite R. cbn [of_db_result].
  assert (E : match table_name with
              | Some name => Dict.get_default Main.COLUMN_NAME_MAP name Dict.empty
              | None => Dict.empty
              end = @Dict.empty str).
  { destruct table_name as [name|]; [|reflexivity].
    unfold Dict.get_default. now rewrite (U name eq_refl). }
  rewrite E.
  rewrite (map_ext (Main.make_item Dict.empty columns)
             (fun row => Dict.update Dict.empty (combine columns row)));
    [reflexivity|].
  intros row. now rewrite make_item_update, display_columns_empty.
Qed.

Lemma run_query_unmapped_witness :
  (forall name, @None str = Some name ->
                Dict.get Main.COLUMN_NAME_MAP name = None) /\
  result_set ragged {| sql_text := py "SELECT 1"; bound := [] |}
  = DbRows ([py "A"; py "B"], [[Number 1; Number 2]; [Number 3]]) /\
  fst (Main.run_query ragged (py "SELECT 1") None [])
  = Return [[(py "A", Number 1); (py "B", Number 2)]; [(py "A", Number 3)]].
Proof.
  assert (U : forall name, @None str = Some name ->
                           Dict.get Main.COLUMN_NAME_MAP name = None)
    by discriminate.
  split; [exact U|]. split; [reflexivity|].
  rewrite (run_query_unmapped ragged (py "SELECT 1") None [] [py "A"; py "B"]
             [[Number 1; Number 2]; [Number 3]] U eq_refl).
  vm_compute. reflexivity.
Defined.

(** Property X14.  For a table of the dictionary whose result columns are distinct and all
    listed in the dictionary, no two columns share a label: every row
    object pairs each label with the cell of its column, in the order of
    the columns, and no cell is lost. *)
Theorem make_item_mapped (name : str) (col_map : Dict.t str)
    (columns : list str) (row : list Cell) :
  Dict.get Main.COLUMN_NAME_MAP name = Some col_map ->
  NoDup columns ->
  (forall c, In c columns -> In c (Dict.keys col_map)) ->
  length row = length columns ->
  NoDup (display_columns col_map columns) /\
  Main.make_item col_map columns row
  = combine (display_columns col_map columns) row.
Proof.
  intros G N K L. destruct (COLUMN_NAME_MAP_tables _ _ G) as [Nk Nl].
  assert (D : NoDup (display_columns col_map columns)).
  { apply NoDup_map_NoDup_ForallPairs; [|assumption].
    intros c c' I I'. unfold Dict.get_default.
    destruct (in_keys_get _ _ (K c I)) as [v Gv].
    destruct (in_keys_get _ _ (K c' I')) as [v' Gv'].
    rewrite Gv, Gv'. intros <-.
    apply (snd_injective col_map c c' v Nl); now apply get_in. }
  split; [exact D|].
  rewrite make_item_update. apply (update_fresh Dict.empty). simpl.
  rewrite combine_fst; [exact D|].
  unfold display_columns. now rewrite length_map.
Qed.

Lemma make_item_mapped_witness :
  Dict.get Main.COLUMN_NAME_MAP (py "Shippers")
  = Some [(py "ShipperID", py "貨運商編號"); (py "CompanyName", py "貨運公司");
          (py "Phone", py "電話")] /\
  Main.make_item
    [(py "ShipperID", py "貨運商編號"); (py "CompanyName", py "貨運公司");
     (py "Phone", py "電話")]
    [py "Phone"; py "ShipperID"] [Text (py "555"); Number 1]
  = [(py "電話", Text (py "555")); (py "貨運商編號", Number 1)].
Proof.
  assert (G : Dict.get Main.COLUMN_NAME_MAP (py "Shippers")
              = Some [(py "ShipperID", py "貨運商編號");
                      (py "CompanyName", py "貨運公司");
                      (py "Phone", py "電話")]) by (vm_compute; reflexivity).
  split; [exact G|].
  destruct (make_item_mapped _ _ [py "Phone"; py "ShipperID"]
              [Text (py "555"); Number 1] G) as [_ E].
  - constructor; [|constructor; [intros []|constructor]].
    intros [H|[]]. vm_compute in H. discriminate H.
  - intros c [<-|[<-|[]]]; vm_compute; auto.
  - reflexivity.
  - rewrite E. vm_compute. reflexivity.
Defined.

(** Property X15.  A row and a column list of different lengths are paired up to the
    shorter of the two; what is beyond is dropped and nothing is raised. *)
Theorem make_item_truncates (col_map : Dict.t str) (columns : list str)
    (row : list Cell) :
  Main.make_item col_map columns row
  = Main.make_item col_map (firstn (length row) columns)
      (firstn (length columns) row) /\
  (length (Main.make_item col_map columns row)
   <= min (length columns) (length row))%nat.
Proof.
  split.
  - unfold Main.make_item.
    rewrite (combine_firstn_r columns row) at 1.
    rewrite (combine_firstn_l (firstn (length row) columns) row).
    rewrite length_firstn.
    replace (firstn (min (length row) (length columns)) row)
      with (firstn (length columns) row); [reflexivity|].
    destruct (Nat.le_ge_cases (length row) (length columns)) as [H|H].
    + rewrite Nat.min_l by assumption. now rewrite !firstn_all2 by lia.
    + now rewrite Nat.min_r by assumption.
  - rewrite make_item_update.
    assert (H := update_length (@Dict.empty Cell)
                   (combine (display_columns col_map columns) row)).
    rewrite length_combine in H. unfold display_columns in H.
    rewrite length_map in H. simpl in H. exact H.
Qed.

End StaticLabels.

(** ** The connection string *)

Section Connection.

Import App.

Lemma py_colon : py ":" = [COLON].
Proof. vm_compute. reflexivity. Qed.

Lemma py_at : py "@" = [AT].
Proof. vm_compute. reflexivity. Qed.

Lemma some_eq {A} (a b : A) : Some a = Some b -> a = b.
Proof. congruence. Qed.

Ltac all_small := repeat (apply Forall_cons; [lia|]); apply Forall_nil.

Lemma encode_char_bytes (c : char) (bs : list N) :
  encode_char c = Some bs -> Forall (fun b => b < 256) bs.
Proof.
  unfold encode_char.
  destruct (N.ltb_spec c 0x80) as [H1|H1].
  { intros E; apply some_eq in E; subst bs. all_small. }
  destruct (N.ltb_spec c 0x800) as [H2|H2].
  { intros E; apply some_eq in E; subst bs.
    assert (c / 64 < 32) by (apply N.Div0.div_lt_upper_bound; lia).
    assert (c mod 64 < 64) by (apply N.mod_lt; lia).
    all_small. }
  destruct (N.ltb_spec c 0x10000) as [H3|H3].
  { destruct (_ && _); [discriminate|]. intros E; apply some_eq in E; subst bs.
    assert (c / 4096 < 16) by (apply N.Div0.div_lt_upper_bound; lia).
    assert ((c / 64) mod 64 < 64) by (apply N.mod_lt; lia).
    assert (c mod 64 < 64) by (apply N.mod_lt; lia).
    all_small. }
  destruct (N.ltb_spec c 0x110000) as [H4|H4]; [|discriminate].
  intros E; apply some_eq in E; subst bs.
  assert (c / 262144 < 5) by (apply N.Div0.div_lt_upper_bound; lia).
  assert ((c / 4096) mod 64 < 64) by (apply N.mod_lt; lia).
  assert ((c / 64) mod 64 < 64) by (apply N.mod_lt; lia).
  assert (c mod 64 < 64) by (apply N.mod_lt; lia).
  all_small.
Qed.

Lemma encode_utf8_bytes (s : str) (bs : list N) :
  encode_utf8 s = Some bs -> Forall (fun b => b < 256) bs.
Proof.
  revert bs. induction s as [|c t IH]; simpl; intros bs.
  - intros [= <-]. constructor.
  - destruct (encode_char c) as [b1|] eqn:E; [|discriminate].
    destruct (encode_utf8 t) as [b2|]; [|discriminate].
    intros [= <-]. apply Forall_app. split; [now apply (encode_char_bytes c)|].
    now apply IH.
Qed.

Lemma hexdigit_safe (n : N) : n < 16 -> always_safe (hexdigit n) = true.
Proof.
  intros H. unfold hexdigit, always_safe.
  destruct (N.ltb_spec n 10) as [D|D].
  - assert (R : (48 <=? 48 + n) && (48 + n <=? 57) = true)
      by (apply andb_true_iff; split; apply N.leb_le; lia).
    now rewrite R, orb_true_r.
  - assert (R : (65 <=? 55 + n) && (55 + n <=? 90) = true)
      by (apply andb_true_iff; split; apply N.leb_le; lia).
    now rewrite R.
Qed.

Lemma quote_byte_chars (b : N) :
  b < 256 -> forallb quoted_char (quote_byte b) = true.
Proof.
  intros H. unfold quote_byte.
  destruct (always_safe b) eqn:S.
  - simpl. unfold quoted_char. now rewrite S.
  - destruct (b =? 32); [reflexivity|].
    assert (A1 : quoted_char (hexdigit (b / 16)) = true).
    { unfold quoted_char. rewrite hexdigit_safe; [reflexivity|].
      apply N.Div0.div_lt_upper_bound. lia. }
    assert (A2 : quoted_char (hexdigit (b mod 16)) = true).
    { unfold quoted_char. rewrite hexdigit_safe; [reflexivity|].
      apply N.mod_lt. lia. }
    cbn [forallb]. rewrite A1, A2. reflexivity.
Qed.

Lemma quote_plus_chars (s q : str) :
  quote_plus s = Some q -> forallb quoted_char q = true.
Proof.
  unfold quote_plus. destruct (encode_utf8 s) as [bs|] eqn:E; [|discriminate].
  intros [= <-]. apply encode_utf8_bytes in E.
  induction E as [|b bs Hb _ IH]; [reflexivity|].
  simpl. rewrite forallb_app, IH, quote_byte_chars; auto.
Qed.

Lemma quoted_no_separator (q : str) :
  forallb quoted_char q = true ->
  contains COLON q = false /\ contains AT q = false.
Proof.
  intros H. rewrite forallb_forall in H.
  split; apply contains_false; intros I; apply H in I; discriminate I.
Qed.

(** Property X16.  The service refuses to start, with the error on the environment,
    exactly when one of the four settings without default is unset or
    empty. *)
Theorem CONN_STR_not_set (env : Environ) :
  CONN_STR env = RuntimeError NOT_SET <->
  exists name,
    In name [py "DB_SERVER"; py "DB_NAME"; py "DB_USER"; py "DB_PASSWORD"] /\
    (env name = None \/ env name = Some []).
Proof.
  assert (T : forall name,
             truthy (getenv env name None) = false <->
             env name = None \/ env name = Some []).
  { intros name. unfold getenv, truthy.
    destruct (env name) as [[|c v]|]; intuition congruence. }
  unfold CONN_STR. cbv zeta. cbn [forallb].
  set (s := getenv env (py "DB_SERVER") None).
  set (n := getenv env (py "DB_NAME") None).
  set (u := getenv env (py "DB_USER") None).
  set (p := getenv env (py "DB_PASSWORD") None).
  split.
  - destruct (truthy s) eqn:Ts;
      [|intros _; exists (py "DB_SERVER"); split; [simpl; tauto|now apply T]].
    destruct (truthy n) eqn:Tn;
      [|intros _; exists (py "DB_NAME"); split; [simpl; tauto|now apply T]].
    destruct (truthy u) eqn:Tu;
      [|intros _; exists (py "DB_USER"); split; [simpl; tauto|now apply T]].
    destruct (truthy p) eqn:Tp;
      [|intros _; exists (py "DB_PASSWORD"); split; [simpl; tauto|now apply T]].
    simpl negb. cbv iota.
    destruct (quote_plus _); [|discriminate].
    destruct (quote_plus _); [|discriminate].
    destruct (quote_plus _); discriminate.
  - intros (name & I & H). apply T in H.
    assert (X : truthy s && (truthy n && (truthy u && (truthy p && true)))
                = false).
    { destruct I as [<-|[<-|[<-|[<-|[]]]]]; fold s n u p in H; rewrite H;
        rewrite ?andb_false_r; reflexivity. }
    now rewrite X.
Qed.

Lemma getenv_no_default (env : Environ) (name : str) :
  getenv env name None = env name.
Proof. unfold getenv. now destruct (env name). Qed.

(** Property X17.  When the service starts, the user and the password stand quoted in
    the connection string, in letters, digits and [_.-~+%] only: whatever
    they hold, the first colon after the scheme is the one that separates
    them and the first [@] after it is the one that ends the password. *)
Theorem CONN_STR_credentials (env : Environ) (conn : str) :
  CONN_STR env = Started conn ->
  exists user password user_q password_q rest,
    env (py "DB_USER") = Some user /\
    env (py "DB_PASSWORD") = Some password /\
    quote_plus user = Some user_q /\
    quote_plus password = Some password_q /\
    forallb quoted_char user_q = true /\
    forallb quoted_char password_q = true /\
    conn = SCHEME ++ user_q ++ [COLON] ++ password_q ++ [AT] ++ rest /\
    split_once COLON (user_q ++ [COLON] ++ password_q ++ [AT] ++ rest)
    = (user_q, password_q ++ [AT] ++ rest) /\
    split_once AT (password_q ++ [AT] ++ rest) = (password_q, rest).
Proof.
  unfold CONN_STR. cbv zeta. cbn [forallb].
  rewrite !getenv_no_default.
  destruct (truthy (env (py "DB_SERVER"))); [|discriminate].
  destruct (truthy (env (py "DB_NAME"))); [|discriminate].
  destruct (env (py "DB_USER")) as [user|] eqn:Eu;
    [|simpl; rewrite ?andb_false_r; discriminate].
  destruct (truthy (Some user)); [|discriminate].
  destruct (env (py "DB_PASSWORD")) as [password|] eqn:Ep; [|discriminate].
  destruct (truthy (Some password)); [|discriminate].
  simpl negb. cbv iota. cbn [format].
  destruct (quote_plus (format _)) as [driver_q|]; [|discriminate].
  destruct (quote_plus user) as [user_q|] eqn:Qu; [|discriminate].
  destruct (quote_plus password) as [password_q|] eqn:Qp; [|discriminate].
  intros E. apply (f_equal (fun r => match r with
                                     | Started c => c
                                     | _ => []
                                     end)) in E. cbv beta iota in E.
  rewrite py_colon, py_at in E.
  assert (Cu := quote_plus_chars _ _ Qu). assert (Cp := quote_plus_chars _ _ Qp).
  destruct (quoted_no_separator _ Cu) as [Nu _].
  destruct (quoted_no_separator _ Cp) as [_ Np].
  exists user, password, user_q, password_q. eexists.
  split; [reflexivity|]. split; [reflexivity|]. split; [exact Qu|].
  split; [exact Qp|]. split; [exact Cu|]. split; [exact Cp|].
  split; [symmetry; exact E|]. split.
  - apply (split_once_app COLON _ _ Nu).
  - apply (split_once_app AT _ _ Np).
Qed.

Lemma CONN_STR_credentials_witness :
  exists conn,
    CONN_STR sample_env = Started conn /\
    exists rest,
      conn = SCHEME ++ py "app+user" ++ [COLON] ++ py "p%40ss%3Aw%2Frd"
             ++ [AT] ++ rest.
Proof.
  destruct (CONN_STR sample_env) as [conn| |] eqn:E;
    [|vm_compute in E; discriminate E|vm_compute in E; discriminate E].
  exists conn. split; [reflexivity|].
  destruct (CONN_STR_credentials sample_env conn E)
    as (user & password & user_q & password_q & rest
        & Eu & Ep & Qu & Qp & _ & _ & C & _).
  exists rest.
  vm_compute in Eu. apply some_eq in Eu. subst user.
  vm_compute in Ep. apply some_eq in Ep. subst password.
  vm_compute in Qu. apply some_eq in Qu. subst user_q.
  vm_compute in Qp. apply some_eq in Qp. subst password_q.
  rewrite C. vm_compute. reflexivity.
Defined.

End Connection.
